(** * The changesets configuration parser ([packages/config/src/index.ts])

    A shallow embedding of [parse] and of the values it works on, and the
    properties of its validation pass and of the configuration it assembles.

    The document handed to [parse] comes straight out of [fs.readJSON], so it
    is modelled as an untyped JSON value: the checks of [parse] exist
    precisely because the document need not have the type [WrittenConfig]. *)

From Stdlib Require Import ZArith Ascii DecimalString.
From stdpp Require Import base strings list gmap.

Local Set Warnings "-register-all,-clear-no-such-hyp".

(** ** JavaScript values *)

(** The values [JSON.parse] produces, and [undefined], which is what reading
    an absent property gives.  The program looks at a number only through
    [typeof] and through its truthiness, so a number is kept as an integer. *)
Inductive JSValue : Type :=
| JUndefined
| JNull
| JBool (b : bool)
| JNum (n : Z)
| JStr (s : string)
| JArr (elems : list JSValue)
| JObj (fields : gmap string JSValue).

(** [v === undefined]. *)
Definition is_undefined (v : JSValue) : bool :=
  match v with JUndefined => true | _ => false end.

(** [v === false]. *)
Definition is_false (v : JSValue) : bool :=
  match v with JBool false => true | _ => false end.

(** [typeof v === "string"]. *)
Definition typeof_string (v : JSValue) : bool :=
  match v with JStr _ => true | _ => false end.

(** [typeof v === "boolean"]. *)
Definition typeof_boolean (v : JSValue) : bool :=
  match v with JBool _ => true | _ => false end.

(** [v === s] for a string literal [s]. *)
Definition is_str (s : string) (v : JSValue) : bool :=
  match v with JStr s' => bool_decide (s' = s) | _ => false end.

(** [Array.isArray(v)]. *)
Definition Array_isArray (v : JSValue) : bool :=
  match v with JArr _ => true | _ => false end.

(** The elements of an array; used only under [Array.isArray]. *)
Definition elements (v : JSValue) : list JSValue :=
  match v with JArr l => l | _ => [] end.

(** [v[i]]: reading past the end of an array gives [undefined]. *)
Definition index (v : JSValue) (i : nat) : JSValue :=
  default JUndefined (elements v !! i).

(** JavaScript's [ToBoolean], the test an [if (v)] performs. *)
Definition truthy (v : JSValue) : bool :=
  match v with
  | JUndefined | JNull => false
  | JBool b => b
  | JNum n => negb (n =? 0)%Z
  | JStr s => negb (bool_decide (s = EmptyString))
  | JArr _ | JObj _ => true
  end.

(** [Array.isArray(v) && v.every(x => typeof x === "string")]. *)
Definition is_array_of_strings (v : JSValue) : bool :=
  Array_isArray v && forallb typeof_string (elements v).

(** [Array.isArray(v) && v.every(arr => Array.isArray(arr) && arr.every(...))]. *)
Definition is_array_of_arrays_of_strings (v : JSValue) : bool :=
  Array_isArray v && forallb is_array_of_strings (elements v).

(** The narrowing TypeScript performs once [typeof v === "string"] holds. *)
Definition as_string (v : JSValue) : string :=
  match v with JStr s => s | _ => EmptyString end.

(** An array of strings, seen as the list of its elements. *)
Definition strings (v : JSValue) : list string := as_string <$> elements v.

(** The value of property [k] of [v].  The program reads only the option
    names of the configuration, which no array, string, number or boolean
    has, so those give [undefined]. *)
Definition field (v : JSValue) (k : string) : JSValue :=
  match v with
  | JObj fields => default JUndefined (fields !! k)
  | _ => JUndefined
  end.

(** Reading a property of [null] or [undefined] raises a [TypeError]. *)
Definition readable (v : JSValue) : bool :=
  match v with JUndefined | JNull => false | _ => true end.

(** ** Strings *)

Definition dquote : string := String "034"%char EmptyString.
Definition newline : string := String "010"%char EmptyString.

(** [`"${s}"`] *)
Definition quoted (s : string) : string := dquote +:+ s +:+ dquote.

(** [l.join(sep)] *)
Fixpoint join (sep : string) (l : list string) : string :=
  match l with
  | [] => EmptyString
  | [x] => x
  | x :: rest => x +:+ sep +:+ join sep rest
  end.

(** ** JavaScript's [Set] of strings

    A [Set] iterates in insertion order, and [parse] reports the duplicated
    linked packages by iterating over one, so a set is the list of its
    members in the order they were first added. *)
Module JSSet.
Definition t := list string.
Definition empty : t := [].
Definition has (s : t) (x : string) : bool := bool_decide (x ∈ s).
Definition add (s : t) (x : string) : t := if has s x then s else s ++ [x].
Definition of_list (l : list string) : t := fold_left add l empty.
Definition size (s : t) : nat := length s.
End JSSet.

(** ** The workspace ([Packages] of [@manypkg/get-packages]) *)

Module PackageJSON.
Record t := { name : string; version : string }.
End PackageJSON.

Module Package.
Record t := { dir : string; packageJson : PackageJSON.t }.
End Package.

Module Packages.
Record t := { root : Package.t; tool : string; packages : list Package.t }.
End Packages.

(** ** Effects

    [parse] has two effects besides its result: it calls [warn] of the
    logger and it calls [getDependentsGraph]; and it can throw.  A
    computation is a function on the record of what has been done so far. *)
Record World := {
  warnings : list string;
  dependentsGraphCalls : list Packages.t
}.

Inductive Error :=
| TypeError
| ValidationError (message : string).

Inductive Outcome (A : Type) :=
| Return (a : A)
| Throw (e : Error).
Arguments Return {A} a.
Arguments Throw {A} e.

Definition M (A : Type) : Type := World → World * Outcome A.

Definition ret {A} (a : A) : M A := λ w, (w, Return a).

Definition throw {A} (e : Error) : M A := λ w, (w, Throw e).

Definition bind {A B} (m : M A) (k : A → M B) : M B :=
  λ w, match m w with
       | (w', Return a) => k a w'
       | (w', Throw e) => (w', Throw e)
       end.

Declare Scope js_scope.
Delimit Scope js_scope with js.
Notation "x <- c1 ;; c2" := (bind c1 (λ x, c2))
  (at level 100, c1 at next level, right associativity) : js_scope.
Open Scope js_scope.

(** [warn(msg)] of [@changesets/logger]. *)
Definition warn (msg : string) : M unit :=
  λ w, ({| warnings := warnings w ++ [msg];
           dependentsGraphCalls := dependentsGraphCalls w |}, Return tt).

(** [v.k], or the destructuring [const { k } = v]. *)
Definition get (v : JSValue) (k : string) : M JSValue :=
  if readable v then ret (field v k) else throw TypeError.

(** ** The resolved configuration *)

Record ExperimentalOptions := {
  onlyUpdatePeerDependentsWhenOutOfRange : JSValue;
  useCalculatedVersionForSnapshots : JSValue
}.

(** The fields hold the values of the document as they are: [parse] copies
    them without converting them. *)
Record Config := {
  changelog : JSValue;
  access : JSValue;
  commit : JSValue;
  linked : JSValue;
  baseBranch : JSValue;
  updateInternalDependencies : JSValue;
  ignore : JSValue;
  ___experimentalUnsafeOptions_WILL_CHANGE_IN_PATCH : ExperimentalOptions
}.

(** [getNormalisedChangelogOption] *)
Definition getNormalisedChangelogOption (thing : JSValue) : JSValue :=
  if is_false thing then JBool false
  else if typeof_string thing then JArr [thing; JNull]
  else thing.

(** ** A workspace to run [parse] on

    The properties of [parse] hold for every [JSON.stringify] and every
    [getDependentsGraph]; to run [parse] on a document one of each is
    needed. *)
Module Example.

(** [JSON.stringify(v, null, 2)] on the values of the model.

    A character of a string is written as it is, but for the double quote,
    the backslash and the control characters, which are escaped. *)
Definition hex_digit (n : nat) : ascii :=
  ascii_of_nat (if n <? 10 then 48 + n else 87 + n).

Definition escape (c : ascii) : string :=
  let n := nat_of_ascii c in
  let backslash := String "092"%char EmptyString in
  if n =? 8 then backslash +:+ "b"
  else if n =? 9 then backslash +:+ "t"
  else if n =? 10 then backslash +:+ "n"
  else if n =? 12 then backslash +:+ "f"
  else if n =? 13 then backslash +:+ "r"
  else if n =? 34 then backslash +:+ dquote
  else if n =? 92 then backslash +:+ backslash
  else if n <? 32
  then backslash +:+ "u00"
       +:+ String (hex_digit (n / 16)) (String (hex_digit (n mod 16)) EmptyString)
  else String c EmptyString.

Fixpoint escaped (s : string) : string :=
  match s with
  | EmptyString => EmptyString
  | String c rest => escape c +:+ escaped rest
  end.

Definition quote (s : string) : string := dquote +:+ escaped s +:+ dquote.

(** The text of [v] at the indentation [indent], or nothing for
    [undefined].  An [undefined] element of an array is written [null] and
    an [undefined] member of an object is left out; an integer is written
    in decimal, as JavaScript does below ten to the power 21.  The members
    of an object come in the order of the map, which is the order of some
    document with these members: the model does not keep the order in
    which a document lists them. *)
Fixpoint serialize (indent : string) (v : JSValue) : option string :=
  match v with
  | JUndefined => None
  | JNull => Some "null"
  | JBool b => Some (if b then "true" else "false")
  | JNum n => Some (NilZero.string_of_int (Z.to_int n))
  | JStr s => Some (quote s)
  | JArr elems =>
      let inner := indent +:+ "  " in
      let partial := (λ x, default "null" (serialize inner x)) <$> elems in
      Some (match partial with
            | [] => "[]"
            | _ => "[" +:+ newline +:+ inner
                   +:+ join ("," +:+ newline +:+ inner) partial
                   +:+ newline +:+ indent +:+ "]"
            end)
  | JObj fields =>
      let inner := indent +:+ "  " in
      let partial :=
        omap (λ member, (λ text, quote member.1 +:+ ": " +:+ text)
                          <$> member.2)
          (map_to_list (serialize inner <$> fields)) in
      Some (match partial with
            | [] => "{}"
            | _ => "{" +:+ newline +:+ inner
                   +:+ join ("," +:+ newline +:+ inner) partial
                   +:+ newline +:+ indent +:+ "}"
            end)
  end.

(** [`${JSON.stringify(v, null, 2)}`] *)
Definition stringify (v : JSValue) : string :=
  default "undefined" (serialize EmptyString v).

Definition package (name : string) : Package.t :=
  {| Package.dir := "packages/" +:+ name;
     Package.packageJson :=
       {| PackageJSON.name := name; PackageJSON.version := "1.0.0" |} |}.

(** Three packages; [pkg-b] depends on [pkg-a] and on [pkg-c]. *)
Definition workspace : Packages.t :=
  {| Packages.root := package "root";
     Packages.tool := "yarn";
     Packages.packages := [package "pkg-a"; package "pkg-b"; package "pkg-c"] |}.

Definition dependentsGraph (packages : Packages.t)
  : gmap string (list string) :=
  list_to_map [("pkg-a", ["pkg-b"]); ("pkg-b", []); ("pkg-c", ["pkg-b"])].

Definition version : string := "1.0.0".

(** Nothing logged, nothing called. *)
Definition world : World := {| warnings := []; dependentsGraphCalls := [] |}.

(** A document, from the list of its options. *)
Definition document (options : list (string * JSValue)) : JSValue :=
  JObj (list_to_map options).

End Example.

(** ** [parse] *)

Section parse.

(** [JSON.stringify(v, null, 2)], a built-in of the language. *)
Variable JSON_stringify : JSValue → string.

(** [getDependentsGraph] of [@changesets/get-dependents-graph]: for each
    package name, the names of the packages that depend on it. *)
Variable getDependentsGraph : Packages.t → gmap string (list string).

(** The [version] of [../package.json], which is not part of the sources. *)
Variable packageJson_version : string.

(** The call [getDependentsGraph(packages)], recorded in the world. *)
Definition call_getDependentsGraph (packages : Packages.t)
  : M (gmap string (list string)) :=
  λ w, ({| warnings := warnings w;
           dependentsGraphCalls := dependentsGraphCalls w ++ [packages] |},
        Return (getDependentsGraph packages)).

Definition defaultWrittenConfig : JSValue :=
  JObj (list_to_map [
    ("$schema", JStr ("https://unpkg.com/@changesets/config@"
                      +:+ packageJson_version +:+ "/schema.json"));
    ("changelog", JStr "@changesets/cli/changelog");
    ("commit", JBool false);
    ("linked", JArr []);
    ("access", JStr "restricted");
    ("baseBranch", JStr "master");
    ("updateInternalDependencies", JStr "patch");
    ("ignore", JArr [])
  ]).

(** *** The messages *)

Definition changelog_message (v : JSValue) : string :=
  "The `changelog` option is set as " +:+ JSON_stringify v
  +:+ " when the only valid values are undefined, a module path(e.g. "
  +:+ quoted "@changesets/cli/changelog" +:+ " or " +:+ quoted "./some-module"
  +:+ ") or a tuple with a module path and config for the changelog generator(e.g. ["
  +:+ quoted "@changesets/cli/changelog" +:+ ", { someOption: true }])".

Definition access_warning : string :=
  "The `access` option is set as " +:+ quoted "private"
  +:+ ", but this is actually not a valid value - the correct form is "
  +:+ quoted "restricted" +:+ ".".

Definition access_message (v : JSValue) : string :=
  "The `access` option is set as " +:+ JSON_stringify v
  +:+ " when the only valid values are undefined, " +:+ quoted "public"
  +:+ " or " +:+ quoted "restricted".

Definition commit_message (v : JSValue) : string :=
  "The `commit` option is set as " +:+ JSON_stringify v
  +:+ " when the only valid values are undefined or a boolean".

Definition baseBranch_message (v : JSValue) : string :=
  "The `baseBranch` option is set as " +:+ JSON_stringify v
  +:+ " but the `baseBranch` option can only be set as a string".

Definition linked_message (v : JSValue) : string :=
  "The `linked` option is set as " +:+ JSON_stringify v
  +:+ " when the only valid values are undefined or an array of arrays of package names".

Definition linked_not_found_message (linkedPkgName : string) : string :=
  "The package " +:+ quoted linkedPkgName
  +:+ " is specified in the `linked` option but it is not found in the project. You may have misspelled the package name.".

Definition linked_duplicate_message (pkgName : string) : string :=
  "The package " +:+ quoted pkgName
  +:+ " is in multiple sets of linked packages. Packages can only be in a single set of linked packages.".

Definition updateInternalDependencies_message (v : JSValue) : string :=
  "The `updateInternalDependencies` option is set as " +:+ JSON_stringify v
  +:+ " but can only be 'patch' or 'minor'".

Definition ignore_message (v : JSValue) : string :=
  "The `ignore` option is set as " +:+ JSON_stringify v
  +:+ " when the only valid values are undefined or an array of package names".

Definition ignore_not_found_message (pkgName : string) : string :=
  "The package " +:+ quoted pkgName
  +:+ " is specified in the `ignore` option but it is not found in the project. You may have misspelled the package name.".

Definition dependent_message (dependent ignoredPackage : string) : string :=
  "The package " +:+ quoted dependent
  +:+ " depends on the ignored package " +:+ quoted ignoredPackage
  +:+ ", but " +:+ quoted dependent
  +:+ " is not being ignored. Please add " +:+ quoted dependent
  +:+ " to the `ignore` option.".

Definition onlyUpdatePeerDependentsWhenOutOfRange_message (v : JSValue) : string :=
  "The `onlyUpdatePeerDependentsWhenOutOfRange` option is set as "
  +:+ JSON_stringify v
  +:+ " when the only valid values are undefined or a boolean".

Definition useCalculatedVersionForSnapshots_message (v : JSValue) : string :=
  "The `useCalculatedVersionForSnapshots` option is set as "
  +:+ JSON_stringify v
  +:+ " when the only valid values are undefined or a boolean".

Definition banner : string :=
  "Some errors occurred when validating the changesets config:" +:+ newline.

(** [messages.push(msg)] *)
Definition push (messages : list string) (msg : string) : list string :=
  messages ++ [msg].

(** [new Set(packages.packages.map(({ packageJson }) => packageJson.name))] *)
Definition pkgNames_of (packages : Packages.t) : JSSet.t :=
  JSSet.of_list
    ((λ p, PackageJSON.name (Package.packageJson p))
       <$> Packages.packages packages).

(** *** The checks, in the order of the source (lines 40 to 226)

    [messages] is the local array of [parse]; each check takes it and
    gives it back with what it pushed. *)

(** Lines 40 to 57. *)
Definition validate_changelog (json : JSValue) (messages : list string)
  : M (list string) :=
  changelog <- get json "changelog";;
  if negb (is_undefined changelog)
     && negb (is_false changelog)
     && negb (typeof_string changelog)
     && negb (Array_isArray changelog
              && bool_decide (length (elements changelog) = 2)
              && typeof_string (index changelog 0))
  then ret (push messages (changelog_message changelog))
  else ret messages.

(** Lines 59 to 78; gives back [normalizedAccess] too. *)
Definition validate_access (json : JSValue) (messages : list string)
  : M (JSValue * list string) :=
  access <- get json "access";;
  normalizedAccess <-
    (if is_str "private" access
     then _ <- warn access_warning;; ret (JStr "restricted")
     else ret access);;
  if negb (is_undefined normalizedAccess)
     && negb (is_str "restricted" normalizedAccess)
     && negb (is_str "public" normalizedAccess)
  then ret (normalizedAccess, push messages (access_message normalizedAccess))
  else ret (normalizedAccess, messages).

(** Lines 80 to 88. *)
Definition validate_commit (json : JSValue) (messages : list string)
  : M (list string) :=
  commit <- get json "commit";;
  if negb (is_undefined commit) && negb (typeof_boolean commit)
  then ret (push messages (commit_message commit))
  else ret messages.

(** Lines 89 to 97. *)
Definition validate_baseBranch (json : JSValue) (messages : list string)
  : M (list string) :=
  baseBranch <- get json "baseBranch";;
  if negb (is_undefined baseBranch) && negb (typeof_string baseBranch)
  then ret (push messages (baseBranch_message baseBranch))
  else ret messages.

(** The body of the inner loop of lines 122 to 134, on the three variables
    it changes. *)
Definition linked_step (pkgNames : JSSet.t)
    (st : list string * JSSet.t * JSSet.t) (linkedPkgName : string)
  : list string * JSSet.t * JSSet.t :=
  let '(messages, foundPkgNames, duplicatedPkgNames) := st in
  let messages :=
    if negb (JSSet.has pkgNames linkedPkgName)
    then push messages (linked_not_found_message linkedPkgName)
    else messages in
  let duplicatedPkgNames :=
    if JSSet.has foundPkgNames linkedPkgName
    then JSSet.add duplicatedPkgNames linkedPkgName
    else duplicatedPkgNames in
  let foundPkgNames := JSSet.add foundPkgNames linkedPkgName in
  (messages, foundPkgNames, duplicatedPkgNames).

(** Lines 98 to 143. *)
Definition validate_linked (json : JSValue) (packages : Packages.t)
    (messages : list string) : M (list string) :=
  linked <- get json "linked";;
  if negb (is_undefined linked) then
    if negb (is_array_of_arrays_of_strings linked)
    then ret (push messages (linked_message linked))
    else
      let pkgNames := pkgNames_of packages in
      let '(messages, foundPkgNames, duplicatedPkgNames) :=
        fold_left
          (λ st linkedGroup, fold_left (linked_step pkgNames) linkedGroup st)
          (strings <$> elements linked)
          (messages, JSSet.empty, JSSet.empty) in
      if negb (JSSet.size duplicatedPkgNames =? 0)
      then ret (fold_left
                  (λ messages pkgName,
                     push messages (linked_duplicate_message pkgName))
                  duplicatedPkgNames messages)
      else ret messages
  else ret messages.

(** Lines 144 to 155: [!["patch", "minor"].includes(v)]. *)
Definition validate_updateInternalDependencies (json : JSValue)
    (messages : list string) : M (list string) :=
  updateInternalDependencies <- get json "updateInternalDependencies";;
  if negb (is_undefined updateInternalDependencies)
     && negb (is_str "patch" updateInternalDependencies
              || is_str "minor" updateInternalDependencies)
  then ret (push messages
              (updateInternalDependencies_message updateInternalDependencies))
  else ret messages.

(** Lines 156 to 195. *)
Definition validate_ignore (json : JSValue) (packages : Packages.t)
    (messages : list string) : M (list string) :=
  ignore <- get json "ignore";;
  if truthy ignore then
    if negb (is_array_of_strings ignore)
    then ret (push messages (ignore_message ignore))
    else
      let ignore := strings ignore in
      let pkgNames := pkgNames_of packages in
      let messages :=
        fold_left
          (λ messages pkgName,
             if negb (JSSet.has pkgNames pkgName)
             then push messages (ignore_not_found_message pkgName)
             else messages)
          ignore messages in
      dependentsGraph <- call_getDependentsGraph packages;;
      ret (fold_left
             (λ messages ignoredPackage,
                let dependents :=
                  default [] (dependentsGraph !! ignoredPackage) in
                fold_left
                  (λ messages dependent,
                     if negb (bool_decide (dependent ∈ ignore))
                     then push messages
                            (dependent_message dependent ignoredPackage)
                     else messages)
                  dependents messages)
             ignore messages)
  else ret messages.

(** Lines 197 to 226. *)
Definition validate_experimental (json : JSValue) (messages : list string)
  : M (list string) :=
  experimental <- get json "___experimentalUnsafeOptions_WILL_CHANGE_IN_PATCH";;
  if negb (is_undefined experimental) then
    onlyUpdatePeerDependentsWhenOutOfRange <-
      get experimental "onlyUpdatePeerDependentsWhenOutOfRange";;
    useCalculatedVersionForSnapshots <-
      get experimental "useCalculatedVersionForSnapshots";;
    let messages :=
      if negb (is_undefined onlyUpdatePeerDependentsWhenOutOfRange)
         && negb (typeof_boolean onlyUpdatePeerDependentsWhenOutOfRange)
      then push messages
             (onlyUpdatePeerDependentsWhenOutOfRange_message
                onlyUpdatePeerDependentsWhenOutOfRange)
      else messages in
    let messages :=
      if negb (is_undefined useCalculatedVersionForSnapshots)
         && negb (typeof_boolean useCalculatedVersionForSnapshots)
      then push messages
             (useCalculatedVersionForSnapshots_message
                useCalculatedVersionForSnapshots)
      else messages in
    ret messages
  else ret messages.

(** Lines 39 to 226: every check, from an empty [messages]. *)
Definition validate (json : JSValue) (packages : Packages.t)
  : M (JSValue * list string) :=
  let messages := [] in
  messages <- validate_changelog json messages;;
  r <- validate_access json messages;;
  let '(normalizedAccess, messages) := r in
  messages <- validate_commit json messages;;
  messages <- validate_baseBranch json messages;;
  messages <- validate_linked json packages messages;;
  messages <- validate_updateInternalDependencies json messages;;
  messages <- validate_ignore json packages messages;;
  messages <- validate_experimental json messages;;
  ret (normalizedAccess, messages).

(** [c === undefined ? d : c] *)
Definition or_default (v d : JSValue) : JSValue :=
  if is_undefined v then d else v.

(** Lines 261 to 277: one experimental flag. *)
Definition experimental_flag (json : JSValue) (k : string) : M JSValue :=
  experimental <- get json "___experimentalUnsafeOptions_WILL_CHANGE_IN_PATCH";;
  if is_undefined experimental then ret (JBool false)
  else
    flag <- get experimental k;;
    if is_undefined flag then ret (JBool false) else ret flag.

(** Lines 234 to 279. *)
Definition assemble (json normalizedAccess : JSValue) : M Config :=
  changelog <- get json "changelog";;
  commit <- get json "commit";;
  linked <- get json "linked";;
  baseBranch <- get json "baseBranch";;
  updateInternalDependencies <- get json "updateInternalDependencies";;
  ignore <- get json "ignore";;
  onlyUpdatePeerDependentsWhenOutOfRange <-
    experimental_flag json "onlyUpdatePeerDependentsWhenOutOfRange";;
  useCalculatedVersionForSnapshots <-
    experimental_flag json "useCalculatedVersionForSnapshots";;
  ret {|
    changelog :=
      getNormalisedChangelogOption
        (or_default changelog (field defaultWrittenConfig "changelog"));
    access :=
      or_default normalizedAccess (field defaultWrittenConfig "access");
    commit := or_default commit (field defaultWrittenConfig "commit");
    linked := or_default linked (field defaultWrittenConfig "linked");
    baseBranch :=
      or_default baseBranch (field defaultWrittenConfig "baseBranch");
    updateInternalDependencies :=
      or_default updateInternalDependencies
        (field defaultWrittenConfig "updateInternalDependencies");
    ignore := or_default ignore (field defaultWrittenConfig "ignore");
    ___experimentalUnsafeOptions_WILL_CHANGE_IN_PATCH := {|
      onlyUpdatePeerDependentsWhenOutOfRange :=
        onlyUpdatePeerDependentsWhenOutOfRange;
      useCalculatedVersionForSnapshots := useCalculatedVersionForSnapshots
    |}
  |}.

(** [parse], lines 38 to 280. *)
Definition parse (json : JSValue) (packages : Packages.t) : M Config :=
  r <- validate json packages;;
  let '(normalizedAccess, messages) := r in
  if negb (length messages =? 0)
  then throw (ValidationError (banner +:+ join newline messages))
  else assemble json normalizedAccess.

Definition fakePackage : Package.t :=
  {| Package.dir := EmptyString;
     Package.packageJson :=
       {| PackageJSON.name := EmptyString;
          PackageJSON.version := EmptyString |} |}.

Definition fakePackages : Packages.t :=
  {| Packages.root := fakePackage;
     Packages.tool := "root";
     Packages.packages := [fakePackage] |}.

(** The world a module is loaded in: nothing has been done yet. *)
Definition initial_world : World :=
  {| warnings := []; dependentsGraphCalls := [] |}.

(** [defaultConfig], computed when the module is loaded. *)
Definition defaultConfig : Outcome Config :=
  (parse defaultWrittenConfig fakePackages initial_world).2.

(** ** What the checks compute

    The lists below say, field by field, which messages a document gets.
    They are the vocabulary of the theorems; that [parse] computes them is
    proved further down. *)

(** The number of times [x] occurs in [l]. *)
Definition occurrences {A} `{EqDecision A} (x : A) (l : list A) : nat :=
  length (filter (λ y, y = x) l).

(** The documents on which no property read throws: the document is neither
    [null] nor [undefined], and neither is its experimental object, unless
    that one is absent. *)
Definition well_formed (json : JSValue) : bool :=
  readable json
  && (is_undefined (field json "___experimentalUnsafeOptions_WILL_CHANGE_IN_PATCH")
      || readable (field json "___experimentalUnsafeOptions_WILL_CHANGE_IN_PATCH")).

Definition changelog_messages (changelog : JSValue) : list string :=
  if negb (is_undefined changelog)
     && negb (is_false changelog)
     && negb (typeof_string changelog)
     && negb (Array_isArray changelog
              && bool_decide (length (elements changelog) = 2)
              && typeof_string (index changelog 0))
  then [changelog_message changelog] else [].

Definition normalized_access (access : JSValue) : JSValue :=
  if is_str "private" access then JStr "restricted" else access.

Definition access_messages (access : JSValue) : list string :=
  let normalizedAccess := normalized_access access in
  if negb (is_undefined normalizedAccess)
     && negb (is_str "restricted" normalizedAccess)
     && negb (is_str "public" normalizedAccess)
  then [access_message normalizedAccess] else [].

Definition access_warnings (access : JSValue) : list string :=
  if is_str "private" access then [access_warning] else [].

Definition commit_messages (commit : JSValue) : list string :=
  if negb (is_undefined commit) && negb (typeof_boolean commit)
  then [commit_message commit] else [].

Definition baseBranch_messages (baseBranch : JSValue) : list string :=
  if negb (is_undefined baseBranch) && negb (typeof_string baseBranch)
  then [baseBranch_message baseBranch] else [].

(** The names that are not packages of the workspace, in order. *)
Definition not_found (packages : Packages.t) (names : list string)
  : list string :=
  filter (λ x, x ∉ pkgNames_of packages) names.

(** [duplicatedPkgNames] once the names have been gone through, given what
    [foundPkgNames] and [duplicatedPkgNames] were before. *)
Fixpoint duplicated (foundPkgNames duplicatedPkgNames : JSSet.t)
    (names : list string) : JSSet.t :=
  match names with
  | [] => duplicatedPkgNames
  | x :: rest =>
      duplicated (JSSet.add foundPkgNames x)
        (if JSSet.has foundPkgNames x
         then JSSet.add duplicatedPkgNames x else duplicatedPkgNames)
        rest
  end.

(** The linked sets of a well-shaped [linked], and all their names in the
    order the loops meet them. *)
Definition linked_groups (linked : JSValue) : list (list string) :=
  strings <$> elements linked.

Definition linked_names (linked : JSValue) : list string :=
  concat (linked_groups linked).

Definition linked_messages (packages : Packages.t) (linked : JSValue)
  : list string :=
  if is_undefined linked then []
  else if negb (is_array_of_arrays_of_strings linked)
  then [linked_message linked]
  else (linked_not_found_message <$> not_found packages (linked_names linked))
       ++ (linked_duplicate_message
             <$> duplicated JSSet.empty JSSet.empty (linked_names linked)).

Definition updateInternalDependencies_messages (v : JSValue) : list string :=
  if negb (is_undefined v) && negb (is_str "patch" v || is_str "minor" v)
  then [updateInternalDependencies_message v] else [].

(** The pairs (ignored package, dependent that is not ignored), in the order
    the loops of lines 184 to 193 meet them. *)
Definition missing_dependents (dependentsGraph : gmap string (list string))
    (ignore : list string) : list (string * string) :=
  ignore ≫= λ ignoredPackage,
    (λ dependent, (ignoredPackage, dependent))
      <$> filter (λ dependent, dependent ∉ ignore)
            (default [] (dependentsGraph !! ignoredPackage)).

Definition pair_message (p : string * string) : string :=
  dependent_message p.2 p.1.

Definition ignore_messages (packages : Packages.t) (ignore : JSValue)
  : list string :=
  if truthy ignore then
    if negb (is_array_of_strings ignore) then [ignore_message ignore]
    else (ignore_not_found_message <$> not_found packages (strings ignore))
         ++ (pair_message
               <$> missing_dependents (getDependentsGraph packages)
                     (strings ignore))
  else [].

(** Whether [getDependentsGraph] is called. *)
Definition ignore_calls (packages : Packages.t) (ignore : JSValue)
  : list Packages.t :=
  if truthy ignore && is_array_of_strings ignore then [packages] else [].

Definition flag_messages (message : JSValue → string) (flag : JSValue)
  : list string :=
  if negb (is_undefined flag) && negb (typeof_boolean flag)
  then [message flag] else [].

Definition experimental_messages (experimental : JSValue) : list string :=
  if is_undefined experimental then []
  else flag_messages onlyUpdatePeerDependentsWhenOutOfRange_message
         (field experimental "onlyUpdatePeerDependentsWhenOutOfRange")
       ++ flag_messages useCalculatedVersionForSnapshots_message
            (field experimental "useCalculatedVersionForSnapshots").

(** The messages of a document, check after check. *)
Definition all_messages (json : JSValue) (packages : Packages.t)
  : list string :=
  changelog_messages (field json "changelog")
  ++ access_messages (field json "access")
  ++ commit_messages (field json "commit")
  ++ baseBranch_messages (field json "baseBranch")
  ++ linked_messages packages (field json "linked")
  ++ updateInternalDependencies_messages
       (field json "updateInternalDependencies")
  ++ ignore_messages packages (field json "ignore")
  ++ experimental_messages
       (field json "___experimentalUnsafeOptions_WILL_CHANGE_IN_PATCH").

(** The world after the checks. *)
Definition world_after (json : JSValue) (packages : Packages.t) (w : World)
  : World :=
  {| warnings := warnings w ++ access_warnings (field json "access");
     dependentsGraphCalls :=
       dependentsGraphCalls w ++ ignore_calls packages (field json "ignore") |}.

Definition resolved_flag (json : JSValue) (k : string) : JSValue :=
  let experimental :=
    field json "___experimentalUnsafeOptions_WILL_CHANGE_IN_PATCH" in
  if is_undefined experimental then JBool false
  else or_default (field experimental k) (JBool false).

(** The configuration [parse] returns when there is no message. *)
Definition resolved (json : JSValue) : Config :=
  {| changelog :=
       getNormalisedChangelogOption
         (or_default (field json "changelog") (JStr "@changesets/cli/changelog"));
     access :=
       or_default (normalized_access (field json "access")) (JStr "restricted");
     commit := or_default (field json "commit") (JBool false);
     linked := or_default (field json "linked") (JArr []);
     baseBranch := or_default (field json "baseBranch") (JStr "master");
     updateInternalDependencies :=
       or_default (field json "updateInternalDependencies") (JStr "patch");
     ignore := or_default (field json "ignore") (JArr []);
     ___experimentalUnsafeOptions_WILL_CHANGE_IN_PATCH := {|
       onlyUpdatePeerDependentsWhenOutOfRange :=
         resolved_flag json "onlyUpdatePeerDependentsWhenOutOfRange";
       useCalculatedVersionForSnapshots :=
         resolved_flag json "useCalculatedVersionForSnapshots"
     |}
  |}.

(** The Default Template's values, resolved. *)
Definition default_resolved : Config :=
  {| changelog := JArr [JStr "@changesets/cli/changelog"; JNull];
     access := JStr "restricted";
     commit := JBool false;
     linked := JArr [];
     baseBranch := JStr "master";
     updateInternalDependencies := JStr "patch";
     ignore := JArr [];
     ___experimentalUnsafeOptions_WILL_CHANGE_IN_PATCH := {|
       onlyUpdatePeerDependentsWhenOutOfRange := JBool false;
       useCalculatedVersionForSnapshots := JBool false
     |}
  |}.

(** ** Valid documents

    What each check of [parse] accepts, said without the messages. *)

(** [packages.packages.map(({ packageJson }) => packageJson.name)] *)
Definition workspace_names (packages : Packages.t) : list string :=
  (λ p, PackageJSON.name (Package.packageJson p))
    <$> Packages.packages packages.

Definition valid_changelog (v : JSValue) : Prop :=
  v = JUndefined ∨ v = JBool false ∨ (∃ s, v = JStr s)
  ∨ (∃ s options, v = JArr [JStr s; options]).

Definition valid_access (v : JSValue) : Prop :=
  v = JUndefined ∨ v = JStr "private" ∨ v = JStr "restricted"
  ∨ v = JStr "public".

Definition valid_commit (v : JSValue) : Prop :=
  v = JUndefined ∨ ∃ b, v = JBool b.

Definition valid_baseBranch (v : JSValue) : Prop :=
  v = JUndefined ∨ ∃ s, v = JStr s.

(** An array of arrays of names, all of them packages of the workspace and
    none of them met twice. *)
Definition valid_linked (packages : Packages.t) (v : JSValue) : Prop :=
  v = JUndefined
  ∨ ∃ groups,
      v = JArr ((λ g, JArr (JStr <$> g)) <$> groups)
      ∧ (∀ x, x ∈ concat groups → x ∈ workspace_names packages)
      ∧ NoDup (concat groups).

Definition valid_updateInternalDependencies (v : JSValue) : Prop :=
  v = JUndefined ∨ v = JStr "patch" ∨ v = JStr "minor".

(** Every dependent of an ignored package is ignored. *)
Definition closed_under_dependents
    (dependentsGraph : gmap string (list string)) (names : list string)
  : Prop :=
  ∀ P Q, P ∈ names → Q ∈ default [] (dependentsGraph !! P) → Q ∈ names.

(** A falsy value, or an array of names of the workspace that is closed
    under the dependents graph. *)
Definition valid_ignore (packages : Packages.t) (v : JSValue) : Prop :=
  truthy v = false
  ∨ ∃ names,
      v = JArr (JStr <$> names)
      ∧ (∀ x, x ∈ names → x ∈ workspace_names packages)
      ∧ closed_under_dependents (getDependentsGraph packages) names.

Definition valid_flag (v : JSValue) : Prop :=
  v = JUndefined ∨ ∃ b, v = JBool b.

(** Absent, or anything but [null] whose two flags are absent or booleans. *)
Definition valid_experimental (v : JSValue) : Prop :=
  v = JUndefined
  ∨ (v ≠ JNull
     ∧ valid_flag (field v "onlyUpdatePeerDependentsWhenOutOfRange")
     ∧ valid_flag (field v "useCalculatedVersionForSnapshots")).

Definition valid_document (json : JSValue) (packages : Packages.t) : Prop :=
  json ≠ JUndefined ∧ json ≠ JNull
  ∧ valid_changelog (field json "changelog")
  ∧ valid_access (field json "access")
  ∧ valid_commit (field json "commit")
  ∧ valid_baseBranch (field json "baseBranch")
  ∧ valid_linked packages (field json "linked")
  ∧ valid_updateInternalDependencies
      (field json "updateInternalDependencies")
  ∧ valid_ignore packages (field json "ignore")
  ∧ valid_experimental
      (field json "___experimentalUnsafeOptions_WILL_CHANGE_IN_PATCH").

(** The object a [Config] is, as a document for [parse]. *)
Definition written (config : Config) : JSValue :=
  JObj (list_to_map [
    ("changelog", changelog config);
    ("access", access config);
    ("commit", commit config);
    ("linked", linked config);
    ("baseBranch", baseBranch config);
    ("updateInternalDependencies", updateInternalDependencies config);
    ("ignore", ignore config);
    ("___experimentalUnsafeOptions_WILL_CHANGE_IN_PATCH",
     JObj (list_to_map [
       ("onlyUpdatePeerDependentsWhenOutOfRange",
        onlyUpdatePeerDependentsWhenOutOfRange
          (___experimentalUnsafeOptions_WILL_CHANGE_IN_PATCH config));
       ("useCalculatedVersionForSnapshots",
        useCalculatedVersionForSnapshots
          (___experimentalUnsafeOptions_WILL_CHANGE_IN_PATCH config))
     ]))
  ]).

(** A configuration that has the types of [Config], but for [ignore], which
    may also be a falsy value. *)
Definition well_typed (packages : Packages.t) (config : Config) : Prop :=
  (changelog config = JBool false
   ∨ ∃ s options, changelog config = JArr [JStr s; options])
  ∧ (access config = JStr "restricted" ∨ access config = JStr "public")
  ∧ (∃ b, commit config = JBool b)
  ∧ (∃ s, baseBranch config = JStr s)
  ∧ (updateInternalDependencies config = JStr "patch"
     ∨ updateInternalDependencies config = JStr "minor")
  ∧ (∃ groups,
       linked config = JArr ((λ g, JArr (JStr <$> g)) <$> groups)
       ∧ (∀ x, x ∈ concat groups → x ∈ workspace_names packages)
       ∧ NoDup (concat groups))
  ∧ ((∃ names,
        ignore config = JArr (JStr <$> names)
        ∧ (∀ x, x ∈ names → x ∈ workspace_names packages)
        ∧ closed_under_dependents (getDependentsGraph packages) names)
     ∨ (ignore config ≠ JUndefined ∧ truthy (ignore config) = false))
  ∧ (∃ b1 b2,
       ___experimentalUnsafeOptions_WILL_CHANGE_IN_PATCH config
       = {| onlyUpdatePeerDependentsWhenOutOfRange := JBool b1;
            useCalculatedVersionForSnapshots := JBool b2 |}).

(** How a string ends and how it starts. *)
Definition ends_with (t s : string) : Prop := ∃ a, s = a +:+ t.

(** ** Strings and lists: auxiliary facts *)

Lemma chars_app (a b : string) :
  String.list_ascii_of_string (a +:+ b)
  = String.list_ascii_of_string a ++ String.list_ascii_of_string b.
Proof.
  induction a as [|c a IH]; [done|].
  change (c :: String.list_ascii_of_string (a +:+ b)
          = c :: (String.list_ascii_of_string a
                  ++ String.list_ascii_of_string b)).
  by rewrite IH.
Qed.

Lemma chars_inj (a b : string) :
  String.list_ascii_of_string a = String.list_ascii_of_string b → a = b.
Proof.
  intros H. rewrite <- (String.string_of_list_ascii_of_string a).
  rewrite <- (String.string_of_list_ascii_of_string b). by rewrite H.
Qed.

Lemma string_app_assoc (a b c : string) : (a +:+ b) +:+ c = a +:+ b +:+ c.
Proof.
  induction a as [|x a IH]; [done|].
  change (String x ((a +:+ b) +:+ c) = String x (a +:+ b +:+ c)).
  by rewrite IH.
Qed.

Lemma string_app_inv_tail (a b c : string) : a +:+ c = b +:+ c → a = b.
Proof.
  intros H. apply chars_inj. apply (f_equal String.list_ascii_of_string) in H.
  rewrite !chars_app in H. by apply app_inv_tail in H.
Qed.

Lemma ends_with_app (t s a : string) : ends_with t s → ends_with t (a +:+ s).
Proof. intros [b ->]. exists (a +:+ b). by rewrite string_app_assoc. Qed.

Lemma ends_with_unique (t1 t2 s : string) :
  ends_with t1 s → ends_with t2 s →
  length (String.list_ascii_of_string t1)
  = length (String.list_ascii_of_string t2) →
  t1 = t2.
Proof.
  intros [a ->] [b Hb] Hlen. apply chars_inj.
  apply (f_equal String.list_ascii_of_string) in Hb.
  rewrite !chars_app in Hb. by apply app_inj_2 in Hb as [_ ?].
Qed.

Lemma occurrences_nil {A} `{EqDecision A} (x : A) : occurrences x [] = 0.
Proof. done. Qed.

Lemma occurrences_cons {A} `{EqDecision A} (x y : A) (l : list A) :
  occurrences x (y :: l)
  = (if decide (y = x) then 1 else 0) + occurrences x l.
Proof.
  unfold occurrences. rewrite filter_cons. by destruct (decide (y = x)).
Qed.

Lemma occurrences_app {A} `{EqDecision A} (x : A) (l k : list A) :
  occurrences x (l ++ k) = occurrences x l + occurrences x k.
Proof. unfold occurrences. by rewrite filter_app, length_app. Qed.

Lemma occurrences_zero {A} `{EqDecision A} (x : A) (l : list A) :
  occurrences x l = 0 ↔ x ∉ l.
Proof.
  induction l as [|y l IH].
  { split; [intros _; apply not_elem_of_nil|done]. }
  rewrite occurrences_cons, not_elem_of_cons.
  destruct (decide (y = x)) as [->|]; simpl; [|naive_solver].
  split; [lia|naive_solver].
Qed.

Lemma occurrences_pos {A} `{EqDecision A} (x : A) (l : list A) :
  1 ≤ occurrences x l ↔ x ∈ l.
Proof.
  destruct (decide (x ∈ l)) as [Hin|Hin].
  - split; [done|]. intros _.
    destruct (occurrences x l) eqn:E; [|lia].
    by apply occurrences_zero in E.
  - apply occurrences_zero in Hin as E. rewrite E. split; [lia|done].
Qed.

Lemma occurrences_NoDup {A} `{EqDecision A} (x : A) (l : list A) :
  NoDup l → occurrences x l = if decide (x ∈ l) then 1 else 0.
Proof.
  induction 1 as [|y l Hy Hl IH]; [done|].
  rewrite occurrences_cons, IH.
  destruct (decide (x ∈ y :: l)) as [Hin'|Hin'], (decide (x ∈ l)) as [Hin|Hin],
    (decide (y = x)) as [->|Hne]; try done; set_solver.
Qed.

Lemma occurrences_fmap_inj {A B} `{EqDecision A} `{EqDecision B}
    (f : A → B) (x : A) (l : list A) :
  Inj (=) (=) f → occurrences (f x) (f <$> l) = occurrences x l.
Proof.
  intros Hf. induction l as [|y l IH]; [done|].
  rewrite fmap_cons, !occurrences_cons, IH.
  destruct (decide (y = x)) as [->|Hne]; [by rewrite decide_True|].
  rewrite decide_False; [done|]. by intros ?%Hf.
Qed.

Lemma occurrences_fmap_none {A B} `{EqDecision B}
    (f : A → B) (y : B) (l : list A) :
  (∀ x, f x ≠ y) → occurrences y (f <$> l) = 0.
Proof.
  intros Hf. apply occurrences_zero. intros (x & ? & _)%list_elem_of_fmap.
  by eapply Hf.
Qed.

Lemma occurrences_concat_ge {A} `{EqDecision A} (x : A) (ls : list (list A))
    (l : list A) :
  l ∈ ls → occurrences x l ≤ occurrences x (concat ls).
Proof.
  induction 1 as [l ls|l l' ls _ IH]; simpl; rewrite occurrences_app; lia.
Qed.

Lemma occurrences_concat_two {A} `{EqDecision A} (x : A) (ls : list (list A))
    (i j : nat) (l k : list A) :
  i ≠ j → ls !! i = Some l → ls !! j = Some k → x ∈ l → x ∈ k →
  2 ≤ occurrences x (concat ls).
Proof.
  revert i j. induction ls as [|h ls IH]; intros i j Hij Hi Hj Hl Hk; [done|].
  simpl. rewrite occurrences_app.
  destruct i as [|i], j as [|j]; simplify_eq/=.
  - apply occurrences_pos in Hl.
    apply list_elem_of_lookup_2 in Hj.
    pose proof (occurrences_concat_ge x ls k Hj).
    apply occurrences_pos in Hk. lia.
  - apply occurrences_pos in Hk.
    apply list_elem_of_lookup_2 in Hi.
    pose proof (occurrences_concat_ge x ls l Hi).
    apply occurrences_pos in Hl. lia.
  - assert (i ≠ j) by congruence.
    pose proof (IH i j). naive_solver lia.
Qed.


(** ** Sets *)

Lemma JSSet_has_spec (s : JSSet.t) (x : string) :
  JSSet.has s x = true ↔ x ∈ s.
Proof. unfold JSSet.has. by rewrite bool_decide_eq_true. Qed.

Lemma JSSet_elem_of_add (s : JSSet.t) (x y : string) :
  y ∈ JSSet.add s x ↔ y ∈ s ∨ y = x.
Proof.
  unfold JSSet.add, JSSet.has. case_bool_decide; [set_solver|].
  rewrite elem_of_app, list_elem_of_singleton. done.
Qed.

Lemma JSSet_NoDup_add (s : JSSet.t) (x : string) :
  NoDup s → NoDup (JSSet.add s x).
Proof.
  intros Hs. unfold JSSet.add, JSSet.has. case_bool_decide; [done|].
  apply NoDup_app. split_and!; [done| |apply NoDup_singleton].
  intros y Hy ->%list_elem_of_singleton. done.
Qed.

Lemma JSSet_elem_of_fold_add (l : list string) (s : JSSet.t) (y : string) :
  y ∈ fold_left JSSet.add l s ↔ y ∈ s ∨ y ∈ l.
Proof.
  revert s. induction l as [|x l IH]; intros s; simpl; [set_solver|].
  rewrite IH, JSSet_elem_of_add. set_solver.
Qed.

Lemma JSSet_elem_of_of_list (l : list string) (y : string) :
  y ∈ JSSet.of_list l ↔ y ∈ l.
Proof.
  unfold JSSet.of_list. rewrite JSSet_elem_of_fold_add. set_solver.
Qed.

(** ** The loops *)

Lemma fold_left_concat {A S} (f : S → A → S) (ls : list (list A)) (st : S) :
  fold_left (λ st l, fold_left f l st) ls st = fold_left f (concat ls) st.
Proof.
  revert st. induction ls as [|l ls IH]; intros st; simpl; [done|].
  by rewrite IH, fold_left_app.
Qed.

Lemma fold_left_push {A} (f : A → string) (l : list A) (messages : list string) :
  fold_left (λ messages x, push messages (f x)) l messages
  = messages ++ (f <$> l).
Proof.
  revert messages. induction l as [|x l IH]; intros messages; simpl.
  - by rewrite app_nil_r.
  - rewrite IH. unfold push. by rewrite <- app_assoc.
Qed.

Lemma fold_left_push_unless {A} (P : A → Prop) `{∀ x, Decision (P x)}
    (f : A → string) (l : list A) (messages : list string) :
  fold_left (λ messages x,
               if negb (bool_decide (P x)) then push messages (f x)
               else messages) l messages
  = messages ++ (f <$> filter (λ x, ¬ P x) l).
Proof.
  revert messages. induction l as [|x l IH]; intros messages; simpl.
  - by rewrite app_nil_r.
  - rewrite IH, filter_cons. case_bool_decide; simpl.
    + by rewrite decide_False by tauto.
    + rewrite decide_True by done. unfold push.
      by rewrite fmap_cons, <- app_assoc.
Qed.

Lemma fold_left_linked_step (packages : Packages.t) (names : list string)
    (messages : list string) (foundPkgNames duplicatedPkgNames : JSSet.t) :
  fold_left (linked_step (pkgNames_of packages)) names
    (messages, foundPkgNames, duplicatedPkgNames)
  = (messages ++ (linked_not_found_message <$> not_found packages names),
     fold_left JSSet.add names foundPkgNames,
     duplicated foundPkgNames duplicatedPkgNames names).
Proof.
  revert messages foundPkgNames duplicatedPkgNames.
  induction names as [|x names IH]; intros messages found dup; simpl.
  - by rewrite app_nil_r.
  - rewrite IH. unfold not_found. rewrite filter_cons.
    unfold JSSet.has at 1. case_bool_decide; simpl.
    + by rewrite decide_False by tauto.
    + rewrite decide_True by done. unfold push.
      by rewrite fmap_cons, <- app_assoc.
Qed.

Lemma fold_left_dependents (ignore : list string)
    (dependentsGraph : gmap string (list string)) (l : list string)
    (messages : list string) :
  fold_left
    (λ messages ignoredPackage,
       let dependents := default [] (dependentsGraph !! ignoredPackage) in
       fold_left
         (λ messages dependent,
            if negb (bool_decide (dependent ∈ ignore))
            then push messages (dependent_message dependent ignoredPackage)
            else messages)
         dependents messages)
    l messages
  = messages
    ++ (pair_message
          <$> (l ≫= λ ignoredPackage,
                 (λ dependent, (ignoredPackage, dependent))
                   <$> filter (λ dependent, dependent ∉ ignore)
                         (default [] (dependentsGraph !! ignoredPackage)))).
Proof.
  revert messages. induction l as [|P l IH]; intros messages; simpl.
  - by rewrite app_nil_r.
  - rewrite IH.
    rewrite (fold_left_push_unless (λ d, d ∈ ignore)
               (λ d, dependent_message d P)).
    rewrite fmap_app, <- app_assoc. do 2 f_equal.
    by rewrite <- list_fmap_compose.
Qed.

(** ** The duplicated names *)

Lemma duplicated_NoDup (names : list string) (found dup : JSSet.t) :
  NoDup dup → NoDup (duplicated found dup names).
Proof.
  revert found dup. induction names as [|x names IH]; intros found dup Hdup;
    simpl; [done|].
  apply IH. destruct (JSSet.has found x); [|done].
  by apply JSSet_NoDup_add.
Qed.

Lemma elem_of_duplicated (names : list string) (found dup : JSSet.t)
    (y : string) :
  y ∈ duplicated found dup names
  ↔ y ∈ dup ∨ (y ∈ found ∧ y ∈ names) ∨ 2 ≤ occurrences y names.
Proof.
  revert found dup. induction names as [|x names IH]; intros found dup; simpl.
  { rewrite occurrences_nil. set_solver by lia. }
  rewrite IH, occurrences_cons, JSSet_elem_of_add, elem_of_cons.
  pose proof (occurrences_pos y names) as Hpos.
  destruct (JSSet.has found x) eqn:Hx.
  - apply JSSet_has_spec in Hx. rewrite JSSet_elem_of_add.
    destruct (decide (x = y)) as [->|Hne]; simpl; [naive_solver lia|].
    naive_solver lia.
  - assert (x ∉ found) as Hx'.
    { intros ?%JSSet_has_spec. congruence. }
    destruct (decide (x = y)) as [->|Hne]; simpl; [naive_solver lia|].
    naive_solver lia.
Qed.

Lemma elem_of_duplicated_empty (names : list string) (y : string) :
  y ∈ duplicated JSSet.empty JSSet.empty names ↔ 2 ≤ occurrences y names.
Proof.
  rewrite elem_of_duplicated. unfold JSSet.empty. set_solver.
Qed.


(** ** Well-shaped values *)

Lemma is_array_of_strings_fmap (l : list string) :
  is_array_of_strings (JArr (JStr <$> l)) = true.
Proof.
  unfold is_array_of_strings; simpl. by induction l as [|x l IH].
Qed.

Lemma strings_fmap (l : list string) : strings (JArr (JStr <$> l)) = l.
Proof.
  unfold strings; simpl.
  induction l as [|x l IH]; [done|]. rewrite !fmap_cons. by f_equal.
Qed.

Lemma is_array_of_arrays_of_strings_fmap (groups : list (list string)) :
  is_array_of_arrays_of_strings (JArr ((λ g, JArr (JStr <$> g)) <$> groups))
  = true.
Proof.
  unfold is_array_of_arrays_of_strings; simpl.
  induction groups as [|g groups IH]; [done|].
  simpl. by rewrite is_array_of_strings_fmap.
Qed.

Lemma linked_groups_fmap (groups : list (list string)) :
  linked_groups (JArr ((λ g, JArr (JStr <$> g)) <$> groups)) = groups.
Proof.
  unfold linked_groups; simpl.
  induction groups as [|g groups IH]; [done|].
  rewrite !fmap_cons, strings_fmap. by f_equal.
Qed.

(** ** The checks, one by one *)

Lemma get_readable (v : JSValue) (k : string) (w : World) :
  readable v = true → get v k w = (w, Return (field v k)).
Proof. intros Hv. unfold get. by rewrite Hv. Qed.

Lemma get_unreadable (v : JSValue) (k : string) (w : World) :
  readable v = false → get v k w = (w, Throw TypeError).
Proof. intros Hv. unfold get. by rewrite Hv. Qed.

Lemma validate_changelog_spec (json : JSValue) (messages : list string)
    (w : World) :
  readable json = true →
  validate_changelog json messages w
  = (w, Return (messages ++ changelog_messages (field json "changelog"))).
Proof.
  intros Hr. unfold validate_changelog, bind. rewrite get_readable by done.
  unfold changelog_messages, push, ret.
  destruct (_ && _); by rewrite ?app_nil_r.
Qed.

Lemma validate_access_spec (json : JSValue) (messages : list string)
    (w : World) :
  readable json = true →
  validate_access json messages w
  = ({| warnings := warnings w ++ access_warnings (field json "access");
        dependentsGraphCalls := dependentsGraphCalls w |},
     Return (normalized_access (field json "access"),
             messages ++ access_messages (field json "access"))).
Proof.
  intros Hr. unfold validate_access, bind. rewrite get_readable by done.
  unfold access_messages, access_warnings, normalized_access, push, ret, warn.
  destruct (is_str "private" (field json "access")); simpl.
  - by rewrite app_nil_r.
  - rewrite app_nil_r. destruct w; simpl.
    destruct (_ && _); by rewrite ?app_nil_r.
Qed.

Lemma validate_commit_spec (json : JSValue) (messages : list string)
    (w : World) :
  readable json = true →
  validate_commit json messages w
  = (w, Return (messages ++ commit_messages (field json "commit"))).
Proof.
  intros Hr. unfold validate_commit, bind. rewrite get_readable by done.
  unfold commit_messages, push, ret.
  destruct (_ && _); by rewrite ?app_nil_r.
Qed.

Lemma validate_baseBranch_spec (json : JSValue) (messages : list string)
    (w : World) :
  readable json = true →
  validate_baseBranch json messages w
  = (w, Return (messages ++ baseBranch_messages (field json "baseBranch"))).
Proof.
  intros Hr. unfold validate_baseBranch, bind. rewrite get_readable by done.
  unfold baseBranch_messages, push, ret.
  destruct (_ && _); by rewrite ?app_nil_r.
Qed.

Lemma validate_linked_spec (json : JSValue) (packages : Packages.t)
    (messages : list string) (w : World) :
  readable json = true →
  validate_linked json packages messages w
  = (w, Return (messages ++ linked_messages packages (field json "linked"))).
Proof.
  intros Hr. unfold validate_linked, bind. rewrite get_readable by done.
  unfold linked_messages, ret.
  destruct (is_undefined (field json "linked")); simpl.
  { by rewrite app_nil_r. }
  destruct (is_array_of_arrays_of_strings (field json "linked")); simpl;
    [|done].
  rewrite fold_left_concat, fold_left_linked_step.
  fold (linked_groups (field json "linked")).
  fold (linked_names (field json "linked")).
  rewrite fold_left_push, <- app_assoc.
  destruct (duplicated JSSet.empty JSSet.empty
              (linked_names (field json "linked"))) eqn:E; simpl; [|done].
  by rewrite app_nil_r.
Qed.

Lemma validate_updateInternalDependencies_spec (json : JSValue)
    (messages : list string) (w : World) :
  readable json = true →
  validate_updateInternalDependencies json messages w
  = (w, Return (messages
                ++ updateInternalDependencies_messages
                     (field json "updateInternalDependencies"))).
Proof.
  intros Hr. unfold validate_updateInternalDependencies, bind.
  rewrite get_readable by done.
  unfold updateInternalDependencies_messages, push, ret.
  destruct (_ && _); by rewrite ?app_nil_r.
Qed.

Lemma validate_ignore_spec (json : JSValue) (packages : Packages.t)
    (messages : list string) (w : World) :
  readable json = true →
  validate_ignore json packages messages w
  = ({| warnings := warnings w;
        dependentsGraphCalls :=
          dependentsGraphCalls w
          ++ ignore_calls packages (field json "ignore") |},
     Return (messages ++ ignore_messages packages (field json "ignore"))).
Proof.
  intros Hr. unfold validate_ignore, bind. rewrite get_readable by done.
  unfold ignore_messages, ignore_calls, ret, call_getDependentsGraph.
  destruct (truthy (field json "ignore")); simpl.
  2:{ rewrite !app_nil_r. by destruct w. }
  destruct (is_array_of_strings (field json "ignore")); simpl.
  2:{ rewrite !app_nil_r. by destruct w. }
  rewrite fold_left_dependents. unfold JSSet.has.
  rewrite (fold_left_push_unless (λ x, x ∈ pkgNames_of packages)
             ignore_not_found_message).
  by rewrite <- app_assoc.
Qed.

Lemma validate_experimental_spec (json : JSValue) (messages : list string)
    (w : World) :
  well_formed json = true →
  validate_experimental json messages w
  = (w, Return (messages
                ++ experimental_messages
                     (field json "___experimentalUnsafeOptions_WILL_CHANGE_IN_PATCH"))).
Proof.
  intros [Hr Hx]%andb_prop. unfold validate_experimental, bind.
  rewrite get_readable by done. unfold experimental_messages, ret.
  destruct (is_undefined _); simpl in *.
  { by rewrite app_nil_r. }
  rewrite !get_readable by done. unfold flag_messages, push.
  do 2 destruct (_ && _); by rewrite <- ?app_assoc, ?app_nil_r.
Qed.

Lemma validate_experimental_null (json : JSValue) (messages : list string)
    (w : World) :
  readable json = true → well_formed json = false →
  validate_experimental json messages w = (w, Throw TypeError).
Proof.
  intros Hr Hwf. unfold well_formed in Hwf. rewrite Hr in Hwf. simpl in Hwf.
  apply orb_false_elim in Hwf as [Hu Hx].
  unfold validate_experimental, bind. rewrite get_readable by done.
  rewrite Hu. simpl. by rewrite get_unreadable.
Qed.

(** ** All the checks *)

Lemma validate_spec (json : JSValue) (packages : Packages.t) (w : World) :
  well_formed json = true →
  validate json packages w
  = (world_after json packages w,
     Return (normalized_access (field json "access"),
             all_messages json packages)).
Proof.
  intros Hwf. pose proof Hwf as [Hr _]%andb_prop.
  unfold validate, bind.
  rewrite validate_changelog_spec by done.
  rewrite validate_access_spec by done.
  rewrite validate_commit_spec by done.
  rewrite validate_baseBranch_spec by done.
  rewrite validate_linked_spec by done.
  rewrite validate_updateInternalDependencies_spec by done.
  rewrite validate_ignore_spec by done.
  rewrite validate_experimental_spec by done.
  unfold ret, world_after, all_messages; simpl.
  by rewrite <- !app_assoc.
Qed.

Lemma validate_unreadable (json : JSValue) (packages : Packages.t)
    (w : World) :
  readable json = false → validate json packages w = (w, Throw TypeError).
Proof.
  intros Hr. unfold validate, bind, validate_changelog, bind.
  by rewrite get_unreadable.
Qed.

Lemma validate_null_experimental (json : JSValue) (packages : Packages.t)
    (w : World) :
  readable json = true → well_formed json = false →
  validate json packages w = (world_after json packages w, Throw TypeError).
Proof.
  intros Hr Hwf. unfold validate, bind.
  rewrite validate_changelog_spec by done.
  rewrite validate_access_spec by done.
  rewrite validate_commit_spec by done.
  rewrite validate_baseBranch_spec by done.
  rewrite validate_linked_spec by done.
  rewrite validate_updateInternalDependencies_spec by done.
  rewrite validate_ignore_spec by done.
  by rewrite validate_experimental_null.
Qed.

Lemma experimental_flag_spec (json : JSValue) (k : string) (w : World) :
  well_formed json = true →
  experimental_flag json k w = (w, Return (resolved_flag json k)).
Proof.
  intros [Hr Hx]%andb_prop. unfold experimental_flag, bind, resolved_flag.
  rewrite get_readable by done.
  destruct (is_undefined _); simpl in *; [done|].
  rewrite get_readable by done. unfold or_default, ret.
  by destruct (is_undefined (field _ k)).
Qed.

Lemma assemble_spec (json normalizedAccess : JSValue) (w : World) :
  well_formed json = true →
  normalizedAccess = normalized_access (field json "access") →
  assemble json normalizedAccess w = (w, Return (resolved json)).
Proof.
  intros Hwf ->. pose proof Hwf as [Hr _]%andb_prop.
  unfold assemble, bind. rewrite !get_readable by done.
  by rewrite !experimental_flag_spec by done.
Qed.

(** [parse], on the documents on which no property read throws. *)
Lemma parse_spec (json : JSValue) (packages : Packages.t) (w : World) :
  well_formed json = true →
  parse json packages w
  = (world_after json packages w,
     match all_messages json packages with
     | [] => Return (resolved json)
     | messages =>
         Throw (ValidationError (banner +:+ join newline messages))
     end).
Proof.
  intros Hwf. unfold parse, bind. rewrite validate_spec by done.
  destruct (all_messages json packages) as [|m ms] eqn:E; simpl.
  - by rewrite assemble_spec.
  - done.
Qed.


(** ** Telling the messages apart

    The message for a package in several linked sets starts with
    [The package] and ends with [s.]; the messages about an option start
    with [The `], and the other messages about a package end with [e.] or
    with [n.]. *)

Lemma linked_duplicate_message_inj : Inj (=) (=) linked_duplicate_message.
Proof.
  intros p q H. unfold linked_duplicate_message, quoted in H.
  apply (inj (String.app _)) in H. apply string_app_inv_tail in H.
  apply (inj (String.app _)) in H. by apply string_app_inv_tail in H.
Qed.

Lemma linked_duplicate_message_end (p : string) :
  ends_with "s." (linked_duplicate_message p).
Proof.
  unfold linked_duplicate_message. do 2 apply ends_with_app.
  by exists " is in multiple sets of linked packages. Packages can only be in a single set of linked package".
Qed.

Lemma linked_not_found_message_end (x : string) :
  ends_with "e." (linked_not_found_message x).
Proof.
  unfold linked_not_found_message. do 2 apply ends_with_app.
  by exists " is specified in the `linked` option but it is not found in the project. You may have misspelled the package nam".
Qed.

Lemma ignore_not_found_message_end (x : string) :
  ends_with "e." (ignore_not_found_message x).
Proof.
  unfold ignore_not_found_message. do 2 apply ends_with_app.
  by exists " is specified in the `ignore` option but it is not found in the project. You may have misspelled the package nam".
Qed.

Lemma dependent_message_end (d P : string) :
  ends_with "n." (dependent_message d P).
Proof.
  unfold dependent_message. do 8 apply ends_with_app.
  by exists " to the `ignore` optio".
Qed.

Lemma occurrences_singleton_ne {A} `{EqDecision A} (x y : A) :
  y ≠ x → occurrences x [y] = 0.
Proof. intros Hne. apply occurrences_zero. set_solver. Qed.

Lemma duplicate_not_changelog (p : string) (v : JSValue) :
  occurrences (linked_duplicate_message p) (changelog_messages v) = 0.
Proof.
  unfold changelog_messages. destruct (_ && _); [|done].
  apply occurrences_singleton_ne. intros H.
  by apply (f_equal (String.get 4)) in H.
Qed.

Lemma duplicate_not_access (p : string) (v : JSValue) :
  occurrences (linked_duplicate_message p) (access_messages v) = 0.
Proof.
  unfold access_messages. destruct (_ && _); [|done].
  apply occurrences_singleton_ne. intros H.
  by apply (f_equal (String.get 4)) in H.
Qed.

Lemma duplicate_not_commit (p : string) (v : JSValue) :
  occurrences (linked_duplicate_message p) (commit_messages v) = 0.
Proof.
  unfold commit_messages. destruct (_ && _); [|done].
  apply occurrences_singleton_ne. intros H.
  by apply (f_equal (String.get 4)) in H.
Qed.

Lemma duplicate_not_baseBranch (p : string) (v : JSValue) :
  occurrences (linked_duplicate_message p) (baseBranch_messages v) = 0.
Proof.
  unfold baseBranch_messages. destruct (_ && _); [|done].
  apply occurrences_singleton_ne. intros H.
  by apply (f_equal (String.get 4)) in H.
Qed.

Lemma duplicate_not_updateInternalDependencies (p : string) (v : JSValue) :
  occurrences (linked_duplicate_message p)
    (updateInternalDependencies_messages v) = 0.
Proof.
  unfold updateInternalDependencies_messages. destruct (_ && _); [|done].
  apply occurrences_singleton_ne. intros H.
  by apply (f_equal (String.get 4)) in H.
Qed.

Lemma duplicate_not_ignore (p : string) (packages : Packages.t)
    (v : JSValue) :
  occurrences (linked_duplicate_message p) (ignore_messages packages v) = 0.
Proof.
  unfold ignore_messages. destruct (truthy v); [|done].
  destruct (is_array_of_strings v); simpl.
  - rewrite occurrences_app.
    rewrite !occurrences_fmap_none; [done| |].
    + intros [P d] H. unfold pair_message in H; simpl in H.
      pose proof (dependent_message_end d P) as He. rewrite H in He.
      by pose proof (ends_with_unique _ _ _ He
                       (linked_duplicate_message_end p) eq_refl).
    + intros x H.
      pose proof (ignore_not_found_message_end x) as He. rewrite H in He.
      by pose proof (ends_with_unique _ _ _ He
                       (linked_duplicate_message_end p) eq_refl).
  - apply occurrences_singleton_ne. intros H.
    by apply (f_equal (String.get 4)) in H.
Qed.

Lemma duplicate_not_experimental (p : string) (v : JSValue) :
  occurrences (linked_duplicate_message p) (experimental_messages v) = 0.
Proof.
  unfold experimental_messages, flag_messages.
  destruct (is_undefined v); [done|]. rewrite occurrences_app.
  do 2 destruct (_ && _); simpl; rewrite ?occurrences_singleton_ne; try done;
    intros H; by apply (f_equal (String.get 4)) in H.
Qed.

Lemma duplicate_in_linked (p : string) (packages : Packages.t)
    (linked : JSValue) :
  is_undefined linked = false →
  is_array_of_arrays_of_strings linked = true →
  occurrences (linked_duplicate_message p) (linked_messages packages linked)
  = if decide (2 ≤ occurrences p (linked_names linked)) then 1 else 0.
Proof.
  intros Hu Hs. unfold linked_messages. rewrite Hu, Hs; simpl.
  rewrite occurrences_app, occurrences_fmap_none; simpl.
  - rewrite (occurrences_fmap_inj _ _ _ linked_duplicate_message_inj).
    rewrite occurrences_NoDup by (apply duplicated_NoDup; constructor).
    pose proof (elem_of_duplicated_empty (linked_names linked) p).
    repeat case_decide; naive_solver.
  - intros x H.
    pose proof (linked_not_found_message_end x) as He. rewrite H in He.
    by pose proof (ends_with_unique _ _ _ He
                     (linked_duplicate_message_end p) eq_refl).
Qed.

(** How often the message for [p] being in several linked sets occurs among
    all the messages of a document whose [linked] is well-shaped. *)
Lemma occurrences_linked_duplicate_message (p : string) (json : JSValue)
    (packages : Packages.t) :
  is_undefined (field json "linked") = false →
  is_array_of_arrays_of_strings (field json "linked") = true →
  occurrences (linked_duplicate_message p) (all_messages json packages)
  = if decide (2 ≤ occurrences p (linked_names (field json "linked")))
    then 1 else 0.
Proof.
  intros Hu Hs. unfold all_messages. rewrite !occurrences_app.
  rewrite duplicate_not_changelog, duplicate_not_access, duplicate_not_commit,
    duplicate_not_baseBranch, duplicate_not_updateInternalDependencies,
    duplicate_not_ignore, duplicate_not_experimental.
  rewrite duplicate_in_linked by done. lia.
Qed.


Lemma parse_null_experimental (json : JSValue) (packages : Packages.t)
    (w : World) :
  readable json = true → well_formed json = false →
  parse json packages w = (world_after json packages w, Throw TypeError).
Proof.
  intros Hr Hwf. unfold parse, bind.
  by rewrite validate_null_experimental.
Qed.

(** ** The dependents that are not ignored *)

Lemma occurrences_filter_not_in (ignore l : list string) (Q : string) :
  occurrences Q (filter (λ d, d ∉ ignore) l)
  = if decide (Q ∈ ignore) then 0 else occurrences Q l.
Proof.
  induction l as [|d l IH]; [by case_decide|].
  rewrite filter_cons, occurrences_cons.
  destruct (decide (d ∉ ignore)) as [Hd|Hd].
  - rewrite occurrences_cons, IH. repeat case_decide; naive_solver.
  - rewrite IH. repeat case_decide; naive_solver.
Qed.

Lemma occurrences_paired (x P Q : string) (l : list string) :
  occurrences (P, Q) ((λ d, (x, d)) <$> l)
  = if decide (x = P) then occurrences Q l else 0.
Proof.
  induction l as [|d l IH]; [by case_decide|].
  rewrite fmap_cons, !occurrences_cons, IH.
  repeat case_decide; naive_solver.
Qed.

Lemma occurrences_missing_from
    (dependentsGraph : gmap string (list string)) (ignore l : list string)
    (P Q : string) :
  occurrences (P, Q)
    (l ≫= λ ignoredPackage,
       (λ dependent, (ignoredPackage, dependent))
         <$> filter (λ dependent, dependent ∉ ignore)
               (default [] (dependentsGraph !! ignoredPackage)))
  = if decide (Q ∈ ignore) then 0
    else occurrences P l * occurrences Q (default [] (dependentsGraph !! P)).
Proof.
  induction l as [|x l IH]; [by case_decide|].
  rewrite bind_cons, occurrences_app, IH, occurrences_paired,
    occurrences_filter_not_in, occurrences_cons.
  repeat case_decide; subst; lia.
Qed.

Lemma occurrences_missing_dependents
    (dependentsGraph : gmap string (list string)) (ignore : list string)
    (P Q : string) :
  occurrences (P, Q) (missing_dependents dependentsGraph ignore)
  = if decide (Q ∈ ignore) then 0
    else occurrences P ignore
         * occurrences Q (default [] (dependentsGraph !! P)).
Proof. apply occurrences_missing_from. Qed.

Lemma elem_of_missing_dependents
    (dependentsGraph : gmap string (list string)) (ignore : list string)
    (P Q : string) :
  (P, Q) ∈ missing_dependents dependentsGraph ignore
  ↔ P ∈ ignore ∧ Q ∈ default [] (dependentsGraph !! P) ∧ Q ∉ ignore.
Proof.
  pose proof (occurrences_pos (P, Q)
                (missing_dependents dependentsGraph ignore)) as H1.
  pose proof (occurrences_pos P ignore) as H2.
  pose proof (occurrences_pos Q (default [] (dependentsGraph !! P))) as H3.
  rewrite occurrences_missing_dependents in H1.
  destruct (decide (Q ∈ ignore)) as [HQ|HQ].
  - split; [intros ?%H1; lia|tauto].
  - split.
    + intros ?%H1. split_and!; [apply H2; nia|apply H3; nia|done].
    + intros (?%H2 & ?%H3 & _). apply H1. nia.
Qed.

(** ** Leaving an option out *)

Lemma field_delete_ne (fields : gmap string JSValue) (k k' : string) :
  k ≠ k' → field (JObj (delete k fields)) k' = field (JObj fields) k'.
Proof. intros Hne. simpl. by rewrite lookup_delete_ne. Qed.

Lemma field_delete_eq (fields : gmap string JSValue) (k : string) :
  field (JObj (delete k fields)) k = JUndefined.
Proof. simpl. by rewrite lookup_delete_eq. Qed.

Lemma well_formed_delete (fields : gmap string JSValue) (k : string) :
  k ≠ "___experimentalUnsafeOptions_WILL_CHANGE_IN_PATCH" →
  well_formed (JObj (delete k fields)) = well_formed (JObj fields).
Proof. intros Hne. unfold well_formed. by rewrite !field_delete_ne. Qed.

(** ** The payload of the error *)

Lemma join_lines (payload m : string) (ms : list string) :
  payload +:+ newline +:+ join newline (m :: ms)
  = fold_left (λ payload message, payload +:+ newline +:+ message)
      (m :: ms) payload.
Proof.
  revert payload m. induction ms as [|m' ms IH]; intros payload m; [done|].
  change (join newline (m :: m' :: ms))
    with (m +:+ newline +:+ join newline (m' :: ms)).
  change (fold_left (λ payload message, payload +:+ newline +:+ message)
            (m :: m' :: ms) payload)
    with (fold_left (λ payload message, payload +:+ newline +:+ message)
            (m' :: ms) (payload +:+ newline +:+ m)).
  rewrite <- IH. by rewrite !string_app_assoc.
Qed.

Lemma banner_join_lines (messages : list string) :
  messages ≠ [] →
  banner +:+ join newline messages
  = fold_left (λ payload message, payload +:+ newline +:+ message) messages
      "Some errors occurred when validating the changesets config:".
Proof.
  destruct messages as [|m ms]; [done|]. intros _.
  unfold banner. rewrite string_app_assoc. apply join_lines.
Qed.

(** ** The properties of [parse] *)

(** C1: on a document on which all the checks run, that is one that is
    neither [null] nor [undefined] and whose experimental object is not
    [null], [parse] fails if and only if the list of messages is not empty;
    it then throws one [ValidationError] whose payload is the banner line
    followed by the messages, in order, each on a line of its own, and
    returns no configuration; when the list is empty it returns a
    configuration. *)
Theorem parse_fails_iff_messages (json : JSValue) (packages : Packages.t)
    (w : World) :
  well_formed json = true →
  ∃ w' normalizedAccess messages,
    validate json packages w = (w', Return (normalizedAccess, messages))
    ∧ (messages ≠ [] →
       parse json packages w
       = (w', Throw (ValidationError (banner +:+ join newline messages)))
       ∧ banner +:+ join newline messages
         = fold_left
             (λ payload message,
                payload +:+ String "010"%char EmptyString +:+ message)
             messages
             "Some errors occurred when validating the changesets config:")
    ∧ (messages = [] →
       ∃ config, parse json packages w = (w', Return config))
    ∧ ((∃ e, (parse json packages w).2 = Throw e) ↔ messages ≠ []).
Proof.
  intros Hwf. eexists _, _, _. split; [by apply validate_spec|].
  rewrite parse_spec by done.
  destruct (all_messages json packages) as [|m ms] eqn:Hm; split_and!.
  - done.
  - by eexists.
  - simpl. split; [by intros [e ?]|done].
  - intros Hne. split; [done|]. by apply banner_join_lines.
  - done.
  - simpl. split; [done|]. by eexists.
Qed.

(** C2 (what the code does): a document whose [ignore] is [false], [0] or
    the empty string is accepted without any message, and that value is
    what the configuration holds. *)
Theorem falsy_ignore_accepted (packages : Packages.t) (w : World) :
  parse (JObj {[ "ignore" := JBool false ]}) packages w
  = (w, Return {| changelog := JArr [JStr "@changesets/cli/changelog"; JNull];
                  access := JStr "restricted";
                  commit := JBool false;
                  linked := JArr [];
                  baseBranch := JStr "master";
                  updateInternalDependencies := JStr "patch";
                  ignore := JBool false;
                  ___experimentalUnsafeOptions_WILL_CHANGE_IN_PATCH := {|
                    onlyUpdatePeerDependentsWhenOutOfRange := JBool false;
                    useCalculatedVersionForSnapshots := JBool false |} |})
  ∧ (∃ config,
       parse (JObj {[ "ignore" := JNum 0 ]}) packages w = (w, Return config)
       ∧ ignore config = JNum 0)
  ∧ (∃ config,
       parse (JObj {[ "ignore" := JStr EmptyString ]}) packages w
       = (w, Return config)
       ∧ ignore config = JStr EmptyString).
Proof. split_and!; [done|by eexists|by eexists]. Qed.


(** C4: when [linked] is an array of arrays of names, a name that occurs in
    two or more linked sets makes [parse] fail with exactly one message
    saying that this package is in multiple sets, however many sets it
    occurs in. *)
Theorem linked_duplicate_reported_once (json : JSValue)
    (packages : Packages.t) (w : World) (groups : list (list string))
    (p : string) (i j : nat) (g1 g2 : list string) :
  well_formed json = true →
  field json "linked" = JArr ((λ g, JArr (JStr <$> g)) <$> groups) →
  i ≠ j → groups !! i = Some g1 → groups !! j = Some g2 →
  p ∈ g1 → p ∈ g2 →
  ∃ w' normalizedAccess messages,
    validate json packages w = (w', Return (normalizedAccess, messages))
    ∧ parse json packages w
      = (w', Throw (ValidationError (banner +:+ join newline messages)))
    ∧ occurrences (linked_duplicate_message p) messages = 1.
Proof.
  intros Hwf Hl Hij Hi Hj Hp1 Hp2. eexists _, _, _.
  split; [by apply validate_spec|].
  assert (occurrences (linked_duplicate_message p)
            (all_messages json packages) = 1) as Hocc.
  { rewrite occurrences_linked_duplicate_message.
    - rewrite decide_True; [done|]. unfold linked_names.
      rewrite Hl, linked_groups_fmap.
      by eapply occurrences_concat_two.
    - by rewrite Hl.
    - rewrite Hl. apply is_array_of_arrays_of_strings_fmap. }
  split; [|done]. rewrite parse_spec by done.
  by destruct (all_messages json packages).
Qed.

(** C5: the value [private] of [access] is resolved to [restricted] with
    one warning and no message: the checks give the messages of the document
    without [access], and the warning is logged whatever the other options
    are; when the document without [access] parses, so does the document
    itself, to the same configuration, whose [access] is [restricted].  Any
    other string than [public] and [restricted] makes [parse] fail with the
    message about [access], and logs nothing. *)
Theorem access_private_rewritten (fields : gmap string JSValue)
    (packages : Packages.t) (w : World) :
  (fields !! "access" = Some (JStr "private") →
   warnings (parse (JObj fields) packages w).1
   = warnings w ++ [access_warning]
   ∧ (validate (JObj fields) packages w).2
     = match (validate (JObj (delete "access" fields)) packages w).2 with
       | Return (_, messages) => Return (JStr "restricted", messages)
       | Throw e => Throw e
       end
   ∧ (∀ w0 config,
        parse (JObj (delete "access" fields)) packages w
        = (w0, Return config) →
        access config = JStr "restricted"
        ∧ parse (JObj fields) packages w
          = ({| warnings := warnings w ++ [access_warning];
                dependentsGraphCalls := dependentsGraphCalls w0 |},
             Return config)))
  ∧ (∀ s,
       fields !! "access" = Some (JStr s) →
       s ≠ "private" → s ≠ "public" → s ≠ "restricted" →
       well_formed (JObj fields) = true →
       ∃ w' normalizedAccess messages,
         validate (JObj fields) packages w
         = (w', Return (normalizedAccess, messages))
         ∧ parse (JObj fields) packages w
           = (w', Throw (ValidationError (banner +:+ join newline messages)))
         ∧ access_message (JStr s) ∈ messages
         ∧ warnings w' = warnings w).
Proof.
  split.
  - intros Hf.
    set (json := JObj fields). set (json' := JObj (delete "access" fields)).
    assert (field json "access" = JStr "private") as Hacc.
    { unfold json; simpl. by rewrite Hf. }
    assert (field json' "access" = JUndefined) as Hacc'.
    { apply field_delete_eq. }
    assert (∀ k, "access" ≠ k → field json' k = field json k) as Hk.
    { intros k Hne. by apply field_delete_ne. }
    assert (all_messages json packages = all_messages json' packages) as Hm.
    { unfold all_messages. by rewrite Hacc, Hacc', !Hk by done. }
    assert (resolved json = resolved json') as Hres.
    { unfold resolved, resolved_flag. by rewrite Hacc, Hacc', !Hk by done. }
    assert (world_after json packages w
            = {| warnings := warnings w ++ [access_warning];
                 dependentsGraphCalls :=
                   dependentsGraphCalls (world_after json' packages w) |})
      as Hw.
    { unfold world_after. by rewrite Hacc, (Hk "ignore"). }
    assert (readable json = true) as Hr by done.
    assert (readable json' = true) as Hr' by done.
    assert (well_formed json' = well_formed json) as Hwf'.
    { by apply well_formed_delete. }
    destruct (well_formed json) eqn:Hwf.
    + rewrite !parse_spec, !validate_spec by done.
      rewrite Hw, Hm, Hacc. split_and!; [done|done|].
      intros w0 config Hp.
      destruct (all_messages json' packages); [|done].
      injection Hp as Hw0 Hc. subst w0 config. split; [|by rewrite Hres].
      change (or_default (normalized_access (field json' "access"))
                (JStr "restricted") = JStr "restricted").
      by rewrite Hacc'.
    + rewrite !parse_null_experimental, !validate_null_experimental by done.
      rewrite Hw. split_and!; [done|done|]. by intros w0 config Hp.
  - intros s Hf Hs1 Hs2 Hs3 Hwf.
    assert (field (JObj fields) "access" = JStr s) as Hacc.
    { simpl. by rewrite Hf. }
    assert (access_messages (JStr s) = [access_message (JStr s)]) as Hmsg.
    { unfold access_messages, normalized_access, is_str.
      by rewrite !bool_decide_eq_false_2 by done. }
    assert (access_message (JStr s) ∈ all_messages (JObj fields) packages)
      as Hin.
    { unfold all_messages. rewrite Hacc, Hmsg. set_solver. }
    eexists _, _, _. split; [by apply validate_spec|].
    rewrite parse_spec by done. split_and!.
    + destruct (all_messages (JObj fields) packages);
        [by apply elem_of_nil in Hin|done].
    + done.
    + unfold world_after, access_warnings, is_str; simpl. rewrite Hf; simpl.
      by rewrite bool_decide_eq_false_2, app_nil_r by done.
Qed.

(** C6: a document with every option left out parses to the Default
    Template's values, with [changelog] normalised and both experimental
    flags [false]; so does the empty document, and [defaultConfig] is that
    same configuration. *)
Theorem empty_document_gives_defaults (packages : Packages.t) (w : World) :
  parse (JObj ∅) packages w = (w, Return default_resolved)
  ∧ defaultConfig = Return default_resolved
  ∧ default_resolved
    = {| changelog := JArr [JStr "@changesets/cli/changelog"; JNull];
         access := JStr "restricted";
         commit := JBool false;
         linked := JArr [];
         baseBranch := JStr "master";
         updateInternalDependencies := JStr "patch";
         ignore := JArr [];
         ___experimentalUnsafeOptions_WILL_CHANGE_IN_PATCH := {|
           onlyUpdatePeerDependentsWhenOutOfRange := JBool false;
           useCalculatedVersionForSnapshots := JBool false |} |}
  ∧ (∀ json,
       readable json = true →
       field json "changelog" = JUndefined →
       field json "access" = JUndefined →
       field json "commit" = JUndefined →
       field json "linked" = JUndefined →
       field json "baseBranch" = JUndefined →
       field json "updateInternalDependencies" = JUndefined →
       field json "ignore" = JUndefined →
       field json "___experimentalUnsafeOptions_WILL_CHANGE_IN_PATCH"
       = JUndefined →
       parse json packages w = (w, Return default_resolved)).
Proof.
  split_and!; [done..|].
  intros json Hr H1 H2 H3 H4 H5 H6 H7 H8.
  assert (well_formed json = true) as Hwf.
  { unfold well_formed. by rewrite Hr, H8. }
  rewrite parse_spec by done.
  unfold all_messages, world_after, resolved, resolved_flag.
  rewrite H1, H2, H3, H4, H5, H6, H7, H8. simpl.
  rewrite !app_nil_r. by destruct w.
Qed.

(** C7: [getNormalisedChangelogOption] maps [false] to [false] and a string
    [s] to [[s, null]], and gives back a pair [[reference, options]] as it
    is; a document whose [changelog] is the string [s] and that passes the
    checks resolves to [changelog = [s, null]], as [my-generator] does. *)
Theorem changelog_normalised :
  getNormalisedChangelogOption (JBool false) = JBool false
  ∧ (∀ s, getNormalisedChangelogOption (JStr s) = JArr [JStr s; JNull])
  ∧ (∀ reference options,
       getNormalisedChangelogOption (JArr [JStr reference; options])
       = JArr [JStr reference; options])
  ∧ (∀ packages w,
       ∃ config,
         parse (JObj {[ "changelog" := JStr "my-generator" ]}) packages w
         = (w, Return config)
         ∧ changelog config = JArr [JStr "my-generator"; JNull])
  ∧ (∀ json packages w s,
       well_formed json = true →
       field json "changelog" = JStr s →
       all_messages json packages = [] →
       ∃ w' config,
         parse json packages w = (w', Return config)
         ∧ changelog config = JArr [JStr s; JNull]).
Proof.
  split_and!; try done.
  - intros packages w. by eexists.
  - intros json packages w s Hwf Hs Hm. eexists _, _.
    rewrite parse_spec, Hm by done. split; [done|].
    simpl. by rewrite Hs.
Qed.

(** C8: on a document on which no property read throws, every check runs,
    and the messages are those of [changelog], [access], [commit],
    [baseBranch], [linked], [updateInternalDependencies], [ignore] and the
    experimental flags, in this order, each list depending on its own option
    only; within [linked] and [ignore] the messages follow the order of the
    loops: the names that are not found, then the duplicated names or the
    dependents that are not ignored. *)
Theorem validation_exhaustive_ordered (json : JSValue)
    (packages : Packages.t) (w : World) :
  well_formed json = true →
  let messages :=
    changelog_messages (field json "changelog")
    ++ access_messages (field json "access")
    ++ commit_messages (field json "commit")
    ++ baseBranch_messages (field json "baseBranch")
    ++ linked_messages packages (field json "linked")
    ++ updateInternalDependencies_messages
         (field json "updateInternalDependencies")
    ++ ignore_messages packages (field json "ignore")
    ++ experimental_messages
         (field json "___experimentalUnsafeOptions_WILL_CHANGE_IN_PATCH") in
  validate json packages w
  = (world_after json packages w,
     Return (normalized_access (field json "access"), messages))
  ∧ (messages ≠ [] →
     parse json packages w
     = (world_after json packages w,
        Throw (ValidationError (banner +:+ join newline messages))))
  ∧ (∀ groups,
       field json "linked" = JArr ((λ g, JArr (JStr <$> g)) <$> groups) →
       linked_messages packages (field json "linked")
       = (linked_not_found_message <$> not_found packages (concat groups))
         ++ (linked_duplicate_message
               <$> duplicated JSSet.empty JSSet.empty (concat groups)))
  ∧ (∀ names,
       field json "ignore" = JArr (JStr <$> names) →
       ignore_messages packages (field json "ignore")
       = (ignore_not_found_message <$> not_found packages names)
         ++ (pair_message
               <$> missing_dependents (getDependentsGraph packages) names)).
Proof.
  intros Hwf messages. split_and!.
  - by apply validate_spec.
  - intros Hne. rewrite parse_spec by done.
    fold messages in Hne |- *. change (all_messages json packages) with messages.
    by destruct messages.
  - intros groups ->. unfold linked_messages, linked_names.
    by rewrite is_array_of_arrays_of_strings_fmap, linked_groups_fmap.
  - intros names ->. unfold ignore_messages.
    by rewrite is_array_of_strings_fmap, strings_fmap.
Qed.

(** C9: a name that occurs twice in one and the same linked set is reported
    with the message about multiple sets too, and exactly once. *)
Theorem linked_duplicate_within_one_set (json : JSValue)
    (packages : Packages.t) (w : World) (groups : list (list string))
    (p : string) (g : list string) :
  well_formed json = true →
  field json "linked" = JArr ((λ g, JArr (JStr <$> g)) <$> groups) →
  g ∈ groups → 2 ≤ occurrences p g →
  ∃ w' normalizedAccess messages,
    validate json packages w = (w', Return (normalizedAccess, messages))
    ∧ parse json packages w
      = (w', Throw (ValidationError (banner +:+ join newline messages)))
    ∧ occurrences (linked_duplicate_message p) messages = 1.
Proof.
  intros Hwf Hl Hg Hp. eexists _, _, _.
  split; [by apply validate_spec|].
  assert (occurrences (linked_duplicate_message p)
            (all_messages json packages) = 1) as Hocc.
  { rewrite occurrences_linked_duplicate_message.
    - rewrite decide_True; [done|]. unfold linked_names.
      rewrite Hl, linked_groups_fmap.
      pose proof (occurrences_concat_ge p groups g Hg). lia.
    - by rewrite Hl.
    - rewrite Hl. apply is_array_of_arrays_of_strings_fmap. }
  split; [|done]. rewrite parse_spec by done.
  by destruct (all_messages json packages).
Qed.

(** C10: when [ignore] is defined and falsy, that is [null], [false], [0]
    or the empty string, the check of [ignore] pushes no message and does
    not call [getDependentsGraph]; [parse] behaves as on the document
    without [ignore], except that the configuration it returns holds that
    falsy value as its [ignore]. *)
Theorem falsy_ignore_skipped (fields : gmap string JSValue) (v : JSValue)
    (packages : Packages.t) (w : World) :
  fields !! "ignore" = Some v → v ≠ JUndefined → truthy v = false →
  (v = JNull ∨ v = JBool false ∨ v = JNum 0 ∨ v = JStr EmptyString)
  ∧ (∀ messages w1,
       validate_ignore (JObj fields) packages messages w1
       = (w1, Return messages))
  ∧ dependentsGraphCalls (parse (JObj fields) packages w).1
    = dependentsGraphCalls w
  ∧ parse (JObj fields) packages w
    = match parse (JObj (delete "ignore" fields)) packages w with
      | (w0, Return config) =>
          (w0, Return {|
             changelog := changelog config;
             access := access config;
             commit := commit config;
             linked := linked config;
             baseBranch := baseBranch config;
             updateInternalDependencies := updateInternalDependencies config;
             ignore := v;
             ___experimentalUnsafeOptions_WILL_CHANGE_IN_PATCH :=
               ___experimentalUnsafeOptions_WILL_CHANGE_IN_PATCH config |})
      | (w0, Throw e) => (w0, Throw e)
      end.
Proof.
  intros Hf Hdef Hfalsy.
  set (json := JObj fields). set (json' := JObj (delete "ignore" fields)).
  assert (field json "ignore" = v) as Hign.
  { unfold json; simpl. by rewrite Hf. }
  assert (field json' "ignore" = JUndefined) as Hign'.
  { apply field_delete_eq. }
  assert (∀ k, "ignore" ≠ k → field json' k = field json k) as Hk.
  { intros k Hne. by apply field_delete_ne. }
  assert (ignore_messages packages v = []) as Hnone.
  { unfold ignore_messages. by rewrite Hfalsy. }
  assert (all_messages json packages = all_messages json' packages) as Hm.
  { unfold all_messages. by rewrite Hign, Hign', Hnone, !Hk by done. }
  assert (world_after json packages w = world_after json' packages w) as Hw.
  { unfold world_after, ignore_calls.
    by rewrite Hign, Hign', Hfalsy, !Hk by done. }
  assert (dependentsGraphCalls (world_after json packages w)
          = dependentsGraphCalls w) as Hcalls.
  { unfold world_after, ignore_calls; simpl.
    rewrite Hf; simpl. by rewrite Hfalsy, app_nil_r. }
  assert (readable json = true) as Hr by done.
  assert (readable json' = true) as Hr' by done.
  assert (well_formed json' = well_formed json) as Hwf'.
  { by apply well_formed_delete. }
  split_and!.
  - destruct v as [| |b|n|s| |]; simpl in Hfalsy; try done.
    + by left.
    + right; left. by rewrite Hfalsy.
    + right; right; left. f_equal.
      by apply negb_false_iff, Z.eqb_eq in Hfalsy.
    + right; right; right. f_equal.
      by apply negb_false_iff, bool_decide_eq_true in Hfalsy.
  - intros messages w1. unfold validate_ignore, bind.
    rewrite get_readable by done. fold json. by rewrite Hign, Hfalsy.
  - destruct (well_formed json) eqn:Hwf.
    + by rewrite parse_spec.
    + by rewrite parse_null_experimental.
  - destruct (well_formed json) eqn:Hwf.
    + rewrite !parse_spec by done. rewrite Hw, Hm.
      destruct (all_messages json' packages); [|done].
      f_equal. f_equal. unfold resolved, resolved_flag.
      cbn [changelog access commit linked baseBranch
           updateInternalDependencies ignore
           ___experimentalUnsafeOptions_WILL_CHANGE_IN_PATCH].
      rewrite Hign, !Hk by done.
      f_equal. unfold or_default. by destruct v.
    + rewrite !parse_null_experimental by done. by rewrite Hw.
Qed.


(** ** Which documents pass the checks *)

Lemma changelog_messages_nil (v : JSValue) :
  changelog_messages v = [] ↔ valid_changelog v.
Proof.
  unfold changelog_messages, valid_changelog.
  destruct v as [| |[]|n|s|l|f]; simpl; try (split; [done|naive_solver]);
    try naive_solver.
  destruct l as [|a [|b [|c l]]]; simpl; try (split; [done|naive_solver]).
  destruct a; simpl; try (split; [done|naive_solver]); naive_solver.
Qed.

Lemma access_messages_nil (v : JSValue) :
  access_messages v = [] ↔ valid_access v.
Proof.
  unfold access_messages, normalized_access, valid_access, is_str.
  destruct v as [| |b|n|s|l|f]; simpl; try (split; [done|naive_solver]);
    try naive_solver.
  repeat (case_bool_decide; simpl); subst; try naive_solver.
  all: split; [done|naive_solver].
Qed.

Lemma commit_messages_nil (v : JSValue) :
  commit_messages v = [] ↔ valid_commit v.
Proof.
  unfold commit_messages, valid_commit.
  destruct v; simpl; try (split; [done|naive_solver]); naive_solver.
Qed.

Lemma baseBranch_messages_nil (v : JSValue) :
  baseBranch_messages v = [] ↔ valid_baseBranch v.
Proof.
  unfold baseBranch_messages, valid_baseBranch.
  destruct v; simpl; try (split; [done|naive_solver]); naive_solver.
Qed.

Lemma updateInternalDependencies_messages_nil (v : JSValue) :
  updateInternalDependencies_messages v = []
  ↔ valid_updateInternalDependencies v.
Proof.
  unfold updateInternalDependencies_messages,
    valid_updateInternalDependencies, is_str.
  destruct v as [| |b|n|s|l|f]; simpl; try (split; [done|naive_solver]);
    try naive_solver.
  repeat (case_bool_decide; simpl); subst; try naive_solver.
  all: split; [done|naive_solver].
Qed.

Lemma flag_messages_nil (message : JSValue → string) (v : JSValue) :
  flag_messages message v = [] ↔ valid_flag v.
Proof.
  unfold flag_messages, valid_flag.
  destruct v; simpl; try (split; [done|naive_solver]); naive_solver.
Qed.

Lemma elem_of_pkgNames_of (packages : Packages.t) (x : string) :
  x ∈ pkgNames_of packages ↔ x ∈ workspace_names packages.
Proof. apply JSSet_elem_of_of_list. Qed.

Lemma not_found_nil (packages : Packages.t) (names : list string) :
  not_found packages names = []
  ↔ ∀ x, x ∈ names → x ∈ workspace_names packages.
Proof.
  unfold not_found. induction names as [|y names IH].
  { split; [|done]. intros _ x Hx. by apply elem_of_nil in Hx. }
  rewrite filter_cons. destruct (decide (y ∉ pkgNames_of packages)) as [Hy|Hy].
  - split; [done|]. intros Hall. exfalso. apply Hy.
    apply elem_of_pkgNames_of, Hall. by left.
  - rewrite IH. apply dec_stable in Hy. apply elem_of_pkgNames_of in Hy.
    split.
    + intros Hall x [->|Hx]%elem_of_cons; [done|by apply Hall].
    + intros Hall x Hx. apply Hall. by right.
Qed.

Lemma NoDup_occurrences (l : list string) :
  NoDup l ↔ ∀ x, occurrences x l ≤ 1.
Proof.
  induction l as [|y l IH].
  { split; [intros _ x; by rewrite occurrences_nil; lia|constructor]. }
  rewrite NoDup_cons, IH. split.
  - intros [Hy Hl] x. rewrite occurrences_cons. specialize (Hl x).
    case_decide; [subst|lia]. apply occurrences_zero in Hy. lia.
  - intros Hall. split.
    + apply occurrences_zero. specialize (Hall y).
      rewrite occurrences_cons, decide_True in Hall by done. lia.
    + intros x. specialize (Hall x). rewrite occurrences_cons in Hall. lia.
Qed.

Lemma list_nil_not_elem_of {A} (l : list A) : l = [] ↔ ∀ x, x ∉ l.
Proof.
  split; [intros -> x; apply not_elem_of_nil|].
  destruct l as [|y l]; [done|]. intros H. destruct (H y). by left.
Qed.

Lemma list_fmap_nil_iff {A B} (f : A → B) (l : list A) :
  f <$> l = [] ↔ l = [].
Proof. split; [apply fmap_nil_inv|by intros ->]. Qed.

Lemma duplicated_nil (names : list string) :
  duplicated JSSet.empty JSSet.empty names = [] ↔ NoDup names.
Proof.
  rewrite (list_nil_not_elem_of
             (duplicated JSSet.empty JSSet.empty names : list string)),
    NoDup_occurrences.
  split.
  - intros H x. specialize (H x). rewrite elem_of_duplicated_empty in H. lia.
  - intros H x. specialize (H x). rewrite elem_of_duplicated_empty. lia.
Qed.

Lemma missing_dependents_nil (dependentsGraph : gmap string (list string))
    (names : list string) :
  missing_dependents dependentsGraph names = []
  ↔ closed_under_dependents dependentsGraph names.
Proof.
  rewrite list_nil_not_elem_of. unfold closed_under_dependents. split.
  - intros H P Q HP HQ. destruct (decide (Q ∈ names)) as [|Hn]; [done|].
    destruct (H (P, Q)). by apply elem_of_missing_dependents.
  - intros H [P Q] (HP & HQ & Hn)%elem_of_missing_dependents.
    apply Hn. by eapply H.
Qed.

Lemma is_array_of_strings_inv (v : JSValue) :
  is_array_of_strings v = true → v = JArr (JStr <$> strings v).
Proof.
  unfold is_array_of_strings, strings. destruct v as [| | | | |l|]; try done.
  simpl. intros H. f_equal. induction l as [|a l IH]; [done|].
  simpl in H. apply andb_prop in H as [Ha Hl].
  rewrite !fmap_cons, <- IH by done. by destruct a.
Qed.

Lemma is_array_of_arrays_of_strings_inv (v : JSValue) :
  is_array_of_arrays_of_strings v = true →
  v = JArr ((λ g, JArr (JStr <$> g)) <$> linked_groups v).
Proof.
  unfold is_array_of_arrays_of_strings, linked_groups.
  destruct v as [| | | | |l|]; try done.
  simpl. intros H. f_equal. induction l as [|a l IH]; [done|].
  simpl in H. apply andb_prop in H as [Ha Hl].
  rewrite !fmap_cons, <- IH by done. f_equal.
  by apply is_array_of_strings_inv.
Qed.

Lemma linked_messages_nil (packages : Packages.t) (v : JSValue) :
  linked_messages packages v = [] ↔ valid_linked packages v.
Proof.
  unfold linked_messages, valid_linked.
  destruct (is_undefined v) eqn:Hu.
  { destruct v; try done. split; [by left|done]. }
  destruct (is_array_of_arrays_of_strings v) eqn:Hs; simpl.
  - rewrite app_nil, !list_fmap_nil_iff, not_found_nil, duplicated_nil. split.
    + intros [Hnf Hdup]. right. exists (linked_groups v).
      split; [by apply is_array_of_arrays_of_strings_inv|done].
    + intros [->|(groups & -> & Hnf & Hdup)]; [done|].
      unfold linked_names. by rewrite linked_groups_fmap.
  - split; [done|]. intros [->|(groups & -> & _)]; [done|].
    by rewrite is_array_of_arrays_of_strings_fmap in Hs.
Qed.

Lemma ignore_messages_nil (packages : Packages.t) (v : JSValue) :
  ignore_messages packages v = [] ↔ valid_ignore packages v.
Proof.
  unfold ignore_messages, valid_ignore.
  destruct (truthy v) eqn:Ht; [|split; [by left|done]].
  destruct (is_array_of_strings v) eqn:Hs; simpl.
  - rewrite app_nil, !list_fmap_nil_iff, not_found_nil, missing_dependents_nil.
    split.
    + intros [Hnf Hc]. right. exists (strings v).
      split; [by apply is_array_of_strings_inv|done].
    + intros [?|(names & -> & Hnf & Hc)]; [done|]. by rewrite strings_fmap.
  - split; [done|]. intros [?|(names & -> & _)]; [done|].
    by rewrite is_array_of_strings_fmap in Hs.
Qed.

Lemma experimental_messages_nil (v : JSValue) :
  v ≠ JNull → experimental_messages v = [] ↔ valid_experimental v.
Proof.
  intros Hn. unfold experimental_messages, valid_experimental.
  destruct (is_undefined v) eqn:Hu.
  { destruct v; try done. split; [by left|done]. }
  rewrite app_nil, !flag_messages_nil. split; [naive_solver|].
  intros [->|(_ & ? & ?)]; done.
Qed.

Lemma well_formed_iff (json : JSValue) :
  well_formed json = true
  ↔ json ≠ JUndefined ∧ json ≠ JNull
    ∧ field json "___experimentalUnsafeOptions_WILL_CHANGE_IN_PATCH" ≠ JNull.
Proof.
  unfold well_formed.
  destruct json as [| | | | | |fields]; simpl;
    try (split; [done|by intros (? & ? & _)]);
    try (split; [by intros _|done]).
  destruct (default JUndefined _); simpl;
    try (split; [by intros _|done]).
  split; [done|by intros (_ & _ & ?)].
Qed.

Lemma all_messages_nil (json : JSValue) (packages : Packages.t) :
  well_formed json = true →
  all_messages json packages = [] ↔ valid_document json packages.
Proof.
  intros (Hu & Hn & Hx)%well_formed_iff.
  unfold all_messages, valid_document.
  rewrite !app_nil, changelog_messages_nil, access_messages_nil,
    commit_messages_nil, baseBranch_messages_nil, linked_messages_nil,
    updateInternalDependencies_messages_nil, ignore_messages_nil,
    experimental_messages_nil by done.
  tauto.
Qed.

Lemma valid_document_well_formed (json : JSValue) (packages : Packages.t) :
  valid_document json packages → well_formed json = true.
Proof.
  intros (Hu & Hn & _ & _ & _ & _ & _ & _ & _ & Hx).
  apply well_formed_iff. split_and!; [done..|].
  destruct Hx as [->|[? _]]; done.
Qed.

Lemma parse_returns (json : JSValue) (packages : Packages.t) (w w' : World)
    (config : Config) :
  parse json packages w = (w', Return config) →
  well_formed json = true
  ∧ all_messages json packages = []
  ∧ w' = world_after json packages w
  ∧ config = resolved json.
Proof.
  intros Hp. destruct (well_formed json) eqn:Hwf.
  - rewrite parse_spec in Hp by done.
    destruct (all_messages json packages); [|done]. by simplify_eq.
  - destruct (readable json) eqn:Hr.
    + by rewrite parse_null_experimental in Hp.
    + unfold parse, bind in Hp. by rewrite validate_unreadable in Hp.
Qed.


(** ** More properties of [parse] *)

(** X1: [parse] returns a configuration exactly on the valid documents: the
    document is neither [null] nor [undefined], [changelog] is absent,
    [false], a string or a pair whose first component is a string, [access]
    is absent or one of [private], [restricted], [public], [commit] is
    absent or a boolean, [baseBranch] absent or a string, [linked] absent or
    an array of arrays of names of the workspace in which no name is met
    twice, [updateInternalDependencies] absent, [patch] or [minor], [ignore]
    falsy or an array of names of the workspace closed under the dependents
    graph, and the experimental object is absent or is not [null] and has
    flags that are absent or booleans. *)
Theorem parse_succeeds_iff_valid (json : JSValue) (packages : Packages.t)
    (w : World) :
  (valid_document json packages →
   parse json packages w
   = (world_after json packages w, Return (resolved json)))
  ∧ (∀ w' config,
       parse json packages w = (w', Return config) →
       valid_document json packages).
Proof.
  split.
  - intros Hv. pose proof (valid_document_well_formed _ _ Hv) as Hwf.
    rewrite parse_spec by done.
    by apply all_messages_nil in Hv as ->.
  - intros w' config (Hwf & Hm & _ & _)%parse_returns.
    by apply all_messages_nil.
Qed.

Lemma resolved_well_typed (json : JSValue) (packages : Packages.t) :
  valid_document json packages →
  well_typed packages (resolved json)
  ∧ (truthy (ignore (resolved json)) = false →
     ignore (resolved json) = field json "ignore").
Proof.
  intros (_ & _ & Hc & Ha & Hco & Hb & Hl & Hu & Hi & Hx).
  unfold well_typed, resolved; simpl. split_and!.
  - destruct Hc as [->|[->|[[s ->]|(s & o & ->)]]]; simpl; eauto.
  - destruct Ha as [->|[->|[->| ->]]]; simpl; eauto.
  - destruct Hco as [->|[b ->]]; simpl; eauto.
  - destruct Hb as [->|[s ->]]; simpl; eauto.
  - destruct Hu as [->|[->| ->]]; simpl; eauto.
  - destruct Hl as [->|(groups & -> & ? & ?)]; simpl.
    + exists []. split_and!; [done| |constructor].
      intros x Hx'. by apply elem_of_nil in Hx'.
    + by exists groups.
  - destruct Hi as [Hf|(names & -> & ? & ?)].
    + destruct (field json "ignore") eqn:E; simpl in *; try done;
        try (by right).
      left. exists []. split_and!; [done| |].
      * intros x Hx'. by apply elem_of_nil in Hx'.
      * intros P Q HP. by apply elem_of_nil in HP.
    + left. by exists names.
  - unfold resolved_flag.
    destruct Hx as [->|(_ & [->|[b1 ->]] & [->|[b2 ->]])]; simpl; eauto;
      destruct (is_undefined _); eauto.
  - by destruct (field json "ignore").
Qed.

(** X2: the configuration [parse] returns has the types of [Config], but
    for [ignore]: [changelog] is [false] or a pair whose first component is
    a string, [access] is [restricted] or [public], [commit] is a boolean,
    [baseBranch] a string, [updateInternalDependencies] is [patch] or
    [minor], [linked] is an array of arrays of names of the workspace
    without a repeated name, both experimental flags are booleans, and
    [ignore] is an array of names of the workspace closed under the
    dependents graph, or else the falsy value the document had. *)
Theorem parse_result_typed (json : JSValue) (packages : Packages.t)
    (w w' : World) (config : Config) :
  parse json packages w = (w', Return config) →
  well_typed packages config
  ∧ (truthy (ignore config) = false → ignore config = field json "ignore").
Proof.
  intros (Hwf & Hm & _ & ->)%parse_returns.
  apply resolved_well_typed. by apply all_messages_nil.
Qed.

(** X3: [parse] throws a [TypeError] exactly when the document is [null] or
    [undefined], or its experimental object is [null].  A [null] document
    is refused before anything is done; a [null] experimental object is
    refused after all the other checks, whose messages are lost: not even
    a document with a wrong option gets a [ValidationError] then. *)
Theorem parse_type_error (json : JSValue) (packages : Packages.t)
    (w : World) :
  ((parse json packages w).2 = Throw TypeError
   ↔ json = JUndefined ∨ json = JNull
     ∨ field json "___experimentalUnsafeOptions_WILL_CHANGE_IN_PATCH"
       = JNull)
  ∧ (json = JUndefined ∨ json = JNull →
     parse json packages w = (w, Throw TypeError))
  ∧ (field json "___experimentalUnsafeOptions_WILL_CHANGE_IN_PATCH" = JNull →
     parse json packages w
     = (world_after json packages w, Throw TypeError)).
Proof.
  assert (json = JUndefined ∨ json = JNull →
          parse json packages w = (w, Throw TypeError)) as Hnull.
  { intros [->| ->]; done. }
  assert (field json "___experimentalUnsafeOptions_WILL_CHANGE_IN_PATCH"
          = JNull →
          parse json packages w
          = (world_after json packages w, Throw TypeError)) as Hexp.
  { intros Hx. apply parse_null_experimental.
    - by destruct json.
    - destruct (well_formed json) eqn:Hwf; [|done].
      by apply well_formed_iff in Hwf as (_ & _ & ?). }
  split_and!; [|done|done]. split.
  - intros Ht. destruct (well_formed json) eqn:Hwf.
    + rewrite parse_spec in Ht by done.
      by destruct (all_messages json packages).
    + destruct json; try (by left); try (by right; left);
        unfold well_formed in Hwf; simpl in *; try done.
      right; right. by destruct (default JUndefined _).
  - intros [H|[H|H]].
    + by rewrite Hnull by auto.
    + by rewrite Hnull by auto.
    + by rewrite Hexp.
Qed.

(** X4: what [parse] does besides returning or throwing, on every document
    that is not [null] or [undefined] and whatever the outcome is: it logs
    the one warning about [private] when [access] is that string and logs
    nothing otherwise, and it calls [getDependentsGraph], once and on the
    workspace it was given, when [ignore] is an array of strings, the empty
    array too, and does not call it otherwise. *)
Theorem parse_effects (json : JSValue) (packages : Packages.t) (w : World) :
  json ≠ JUndefined → json ≠ JNull →
  warnings (parse json packages w).1
  = warnings w
    ++ (if is_str "private" (field json "access")
        then [access_warning] else [])
  ∧ dependentsGraphCalls (parse json packages w).1
    = dependentsGraphCalls w
      ++ (if is_array_of_strings (field json "ignore")
          then [packages] else [])
  ∧ (is_str "private" (field json "access") = true
     ↔ field json "access" = JStr "private")
  ∧ (is_array_of_strings (field json "ignore") = true
     ↔ ∃ names, field json "ignore" = JArr (JStr <$> names)).
Proof.
  intros Hu Hn.
  assert (readable json = true) as Hr by by destruct json.
  assert ((parse json packages w).1 = world_after json packages w) as ->.
  { destruct (well_formed json) eqn:Hwf.
    - by rewrite parse_spec.
    - by rewrite parse_null_experimental. }
  unfold world_after, access_warnings, ignore_calls; simpl. split_and!.
  - done.
  - f_equal. destruct (is_array_of_strings (field json "ignore")) eqn:Hs.
    + apply is_array_of_strings_inv in Hs as Heq. by rewrite Heq.
    + by rewrite andb_false_r.
  - destruct (field json "access") as [| | | |s| |]; try naive_solver.
    unfold is_str. rewrite bool_decide_eq_true. naive_solver.
  - split.
    + intros Hs. eexists. by apply is_array_of_strings_inv.
    + intros [names ->]. apply is_array_of_strings_fmap.
Qed.

(** X5: a document that is a number, a string, a boolean or an array has
    none of the options, and parses to the default configuration for every
    workspace, with no message, no warning and no call. *)
Theorem parse_non_object (json : JSValue) (packages : Packages.t)
    (w : World) :
  json ≠ JUndefined → json ≠ JNull → (∀ fields, json ≠ JObj fields) →
  parse json packages w = (w, Return default_resolved).
Proof.
  intros Hu Hn Ho. destruct json; try done.
  by destruct (Ho fields).
Qed.


Lemma parse_written (packages : Packages.t) (config : Config) (w : World) :
  well_typed packages config →
  parse (written config) packages w
  = ({| warnings := warnings w;
        dependentsGraphCalls :=
          dependentsGraphCalls w
          ++ (if is_array_of_strings (ignore config)
              then [packages] else []) |},
     Return config).
Proof.
  destruct config as [c a co l b u i [f1 f2]].
  intros (Hc & Ha & [bc Hco] & [sb Hb] & Hu & (groups & Hl & Hin & Hnd)
          & Hi & (b1 & b2 & Hx)).
  simpl in *. injection Hx as -> ->. subst co b l.
  set (config := {| changelog := c |}).
  assert (well_formed (written config) = true) as Hwf by done.
  assert (valid_document (written config) packages) as Hv.
  { unfold valid_document. split_and!; try done.
    - change (valid_changelog c).
      destruct Hc as [->|(s & o & ->)]; unfold valid_changelog; eauto 6.
    - change (valid_access a).
      destruct Ha as [->| ->]; unfold valid_access; eauto.
    - right. by exists bc.
    - right. by exists sb.
    - right. by exists groups.
    - change (valid_updateInternalDependencies u).
      destruct Hu as [->| ->]; unfold valid_updateInternalDependencies; eauto.
    - change (valid_ignore packages i).
      destruct Hi as [(names & -> & ? & ?)|[_ Hf]]; [right; eauto|by left].
    - right. split_and!; [done|right; by exists b1|right; by exists b2]. }
  rewrite parse_spec by done.
  apply all_messages_nil in Hv as ->; [|done].
  unfold world_after. f_equal.
  - change (field (written config) "access") with a.
    change (field (written config) "ignore") with i.
    f_equal.
    + destruct Ha as [->| ->]; simpl; by rewrite app_nil_r.
    + unfold ignore_calls. f_equal.
      destruct Hi as [(names & -> & _)|[_ Hf]]; [done|].
      destruct i; simpl in *; by rewrite ?andb_false_r.
  - f_equal. unfold resolved, resolved_flag, config.
    change (field (written config) "changelog") with c.
    change (field (written config) "access") with a.
    change (field (written config) "commit") with (JBool bc).
    change (field (written config) "linked")
      with (JArr ((λ g, JArr (JStr <$> g)) <$> groups)).
    change (field (written config) "baseBranch") with (JStr sb).
    change (field (written config) "updateInternalDependencies") with u.
    change (field (written config) "ignore") with i.
    f_equal.
    + by destruct Hc as [->|(s & o & ->)].
    + by destruct Ha as [->| ->].
    + by destruct Hu as [->| ->].
    + destruct Hi as [(names & -> & _)|[Hne _]]; [done|by destruct i].
Qed.

(** X6: [parse] gives back the configurations it returns: parsing the
    returned configuration as a document returns it again, for the same
    workspace, and logs no warning. *)
Theorem parse_idempotent (json : JSValue) (packages : Packages.t)
    (w w' : World) (config : Config) :
  parse json packages w = (w', Return config) →
  ∀ w2,
    parse (written config) packages w2
    = ({| warnings := warnings w2;
          dependentsGraphCalls :=
            dependentsGraphCalls w2
            ++ (if is_array_of_strings (ignore config)
                then [packages] else []) |},
       Return config).
Proof.
  intros (Hwf & Hm & _ & ->)%parse_returns w2.
  apply parse_written. apply resolved_well_typed. by apply all_messages_nil.
Qed.

(** ** Counting the messages about one package *)

Lemma not_a_changelog_message (m : string) (v : JSValue) :
  String.get 4 m = Some "p"%char → occurrences m (changelog_messages v) = 0.
Proof.
  intros Hm. unfold changelog_messages. destruct (_ && _); [|done].
  apply occurrences_singleton_ne. by intros <-.
Qed.

Lemma not_an_access_message (m : string) (v : JSValue) :
  String.get 4 m = Some "p"%char → occurrences m (access_messages v) = 0.
Proof.
  intros Hm. unfold access_messages. destruct (_ && _); [|done].
  apply occurrences_singleton_ne. by intros <-.
Qed.

Lemma not_a_commit_message (m : string) (v : JSValue) :
  String.get 4 m = Some "p"%char → occurrences m (commit_messages v) = 0.
Proof.
  intros Hm. unfold commit_messages. destruct (_ && _); [|done].
  apply occurrences_singleton_ne. by intros <-.
Qed.

Lemma not_a_baseBranch_message (m : string) (v : JSValue) :
  String.get 4 m = Some "p"%char → occurrences m (baseBranch_messages v) = 0.
Proof.
  intros Hm. unfold baseBranch_messages. destruct (_ && _); [|done].
  apply occurrences_singleton_ne. by intros <-.
Qed.

Lemma not_an_updateInternalDependencies_message (m : string) (v : JSValue) :
  String.get 4 m = Some "p"%char →
  occurrences m (updateInternalDependencies_messages v) = 0.
Proof.
  intros Hm. unfold updateInternalDependencies_messages.
  destruct (_ && _); [|done].
  apply occurrences_singleton_ne. by intros <-.
Qed.

Lemma not_an_experimental_message (m : string) (v : JSValue) :
  String.get 4 m = Some "p"%char →
  occurrences m (experimental_messages v) = 0.
Proof.
  intros Hm. unfold experimental_messages, flag_messages.
  destruct (is_undefined v); [done|]. rewrite occurrences_app.
  do 2 destruct (_ && _); simpl; rewrite ?occurrences_singleton_ne; try done;
    by intros <-.
Qed.

Lemma linked_not_found_message_inj : Inj (=) (=) linked_not_found_message.
Proof.
  intros p q H. unfold linked_not_found_message, quoted in H.
  apply (inj (String.app _)) in H. apply string_app_inv_tail in H.
  apply (inj (String.app _)) in H. by apply string_app_inv_tail in H.
Qed.

Lemma ignore_not_found_message_inj : Inj (=) (=) ignore_not_found_message.
Proof.
  intros p q H. unfold ignore_not_found_message, quoted in H.
  apply (inj (String.app _)) in H. apply string_app_inv_tail in H.
  apply (inj (String.app _)) in H. by apply string_app_inv_tail in H.
Qed.

Lemma linked_not_found_message_option (x : string) :
  ends_with "`linked` option but it is not found in the project. You may have misspelled the package name."
    (linked_not_found_message x).
Proof.
  unfold linked_not_found_message. do 2 apply ends_with_app.
  by exists " is specified in the ".
Qed.

Lemma ignore_not_found_message_option (x : string) :
  ends_with "`ignore` option but it is not found in the project. You may have misspelled the package name."
    (ignore_not_found_message x).
Proof.
  unfold ignore_not_found_message. do 2 apply ends_with_app.
  by exists " is specified in the ".
Qed.

Lemma linked_not_found_ne_ignore_not_found (x y : string) :
  linked_not_found_message x ≠ ignore_not_found_message y.
Proof.
  intros H. pose proof (linked_not_found_message_option x) as Hl.
  pose proof (ignore_not_found_message_option y) as Hi. rewrite H in Hl.
  by pose proof (ends_with_unique _ _ _ Hl Hi eq_refl).
Qed.

Lemma occurrences_not_found (packages : Packages.t) (names : list string)
    (x : string) :
  occurrences x (not_found packages names)
  = if decide (x ∈ workspace_names packages) then 0
    else occurrences x names.
Proof.
  unfold not_found. rewrite occurrences_filter_not_in.
  pose proof (elem_of_pkgNames_of packages x).
  repeat case_decide; naive_solver.
Qed.

Lemma linked_not_found_in_linked (x : string) (packages : Packages.t)
    (linked : JSValue) :
  is_undefined linked = false →
  is_array_of_arrays_of_strings linked = true →
  occurrences (linked_not_found_message x) (linked_messages packages linked)
  = if decide (x ∈ workspace_names packages) then 0
    else occurrences x (linked_names linked).
Proof.
  intros Hu Hs. unfold linked_messages. rewrite Hu, Hs; simpl.
  rewrite occurrences_app.
  rewrite (occurrences_fmap_inj _ _ _ linked_not_found_message_inj).
  rewrite occurrences_not_found, occurrences_fmap_none; [lia|].
  intros p H. pose proof (linked_duplicate_message_end p) as He.
  rewrite H in He.
  by pose proof (ends_with_unique _ _ _ He
                   (linked_not_found_message_end x) eq_refl).
Qed.

Lemma linked_not_found_not_ignore (x : string) (packages : Packages.t)
    (v : JSValue) :
  occurrences (linked_not_found_message x) (ignore_messages packages v) = 0.
Proof.
  unfold ignore_messages. destruct (truthy v); [|done].
  destruct (is_array_of_strings v); simpl.
  - rewrite occurrences_app.
    rewrite !occurrences_fmap_none; [done| |].
    + intros [P d] H. unfold pair_message in H; simpl in H.
      pose proof (dependent_message_end d P) as He. rewrite H in He.
      by pose proof (ends_with_unique _ _ _ He
                       (linked_not_found_message_end x) eq_refl).
    + intros y H. by eapply linked_not_found_ne_ignore_not_found.
  - apply occurrences_singleton_ne. intros H.
    by apply (f_equal (String.get 4)) in H.
Qed.

Lemma ignore_not_found_not_linked (x : string) (packages : Packages.t)
    (v : JSValue) :
  occurrences (ignore_not_found_message x) (linked_messages packages v) = 0.
Proof.
  unfold linked_messages. destruct (is_undefined v); [done|].
  destruct (is_array_of_arrays_of_strings v); simpl.
  - rewrite occurrences_app.
    rewrite !occurrences_fmap_none; [done| |].
    + intros p H. pose proof (linked_duplicate_message_end p) as He.
      rewrite H in He.
      by pose proof (ends_with_unique _ _ _ He
                       (ignore_not_found_message_end x) eq_refl).
    + intros y H. by eapply linked_not_found_ne_ignore_not_found.
  - apply occurrences_singleton_ne. intros H.
    by apply (f_equal (String.get 4)) in H.
Qed.

Lemma ignore_not_found_in_ignore (x : string) (packages : Packages.t)
    (names : list string) :
  occurrences (ignore_not_found_message x)
    (ignore_messages packages (JArr (JStr <$> names)))
  = if decide (x ∈ workspace_names packages) then 0
    else occurrences x names.
Proof.
  unfold ignore_messages.
  rewrite is_array_of_strings_fmap, strings_fmap; simpl.
  rewrite occurrences_app.
  rewrite (occurrences_fmap_inj _ _ _ ignore_not_found_message_inj).
  rewrite occurrences_not_found, occurrences_fmap_none; [lia|].
  intros [P d] H. unfold pair_message in H; simpl in H.
  pose proof (dependent_message_end d P) as He. rewrite H in He.
  by pose proof (ends_with_unique _ _ _ He
                   (ignore_not_found_message_end x) eq_refl).
Qed.

(** X7: when [linked] is an array of arrays of names, a name that is not a
    package of the workspace is reported as not found once for each of its
    occurrences in the linked sets, without deduplication, and a name of the
    workspace never is. *)
Theorem linked_not_found_per_occurrence (json : JSValue)
    (packages : Packages.t) (w : World) (groups : list (list string))
    (x : string) :
  well_formed json = true →
  field json "linked" = JArr ((λ g, JArr (JStr <$> g)) <$> groups) →
  ∃ w' normalizedAccess messages,
    validate json packages w = (w', Return (normalizedAccess, messages))
    ∧ occurrences (linked_not_found_message x) messages
      = if decide (x ∈ workspace_names packages) then 0
        else occurrences x (concat groups).
Proof.
  intros Hwf Hl. eexists _, _, _. split; [by apply validate_spec|].
  unfold all_messages. rewrite !occurrences_app.
  rewrite not_a_changelog_message, not_an_access_message,
    not_a_commit_message, not_a_baseBranch_message,
    not_an_updateInternalDependencies_message,
    linked_not_found_not_ignore, not_an_experimental_message by done.
  rewrite linked_not_found_in_linked.
  - unfold linked_names. rewrite Hl, linked_groups_fmap. lia.
  - by rewrite Hl.
  - rewrite Hl. apply is_array_of_arrays_of_strings_fmap.
Qed.

(** X8: when [ignore] is an array of names, a name that is not a package of
    the workspace is reported as not found once for each of its occurrences
    in the array, and a name of the workspace never is. *)
Theorem ignore_not_found_per_occurrence (json : JSValue)
    (packages : Packages.t) (w : World) (names : list string) (x : string) :
  well_formed json = true →
  field json "ignore" = JArr (JStr <$> names) →
  ∃ w' normalizedAccess messages,
    validate json packages w = (w', Return (normalizedAccess, messages))
    ∧ occurrences (ignore_not_found_message x) messages
      = if decide (x ∈ workspace_names packages) then 0
        else occurrences x names.
Proof.
  intros Hwf Hi. eexists _, _, _. split; [by apply validate_spec|].
  unfold all_messages. rewrite !occurrences_app.
  rewrite not_a_changelog_message, not_an_access_message,
    not_a_commit_message, not_a_baseBranch_message,
    not_an_updateInternalDependencies_message,
    ignore_not_found_not_linked, not_an_experimental_message by done.
  rewrite Hi, ignore_not_found_in_ignore. lia.
Qed.

(** X9: when [linked] is an array of arrays of names, the message about a
    package being in multiple sets occurs once for a name met twice or more
    in the linked sets, and never for a name met once or not at all. *)
Theorem linked_duplicate_iff_repeated (json : JSValue)
    (packages : Packages.t) (w : World) (groups : list (list string))
    (p : string) :
  well_formed json = true →
  field json "linked" = JArr ((λ g, JArr (JStr <$> g)) <$> groups) →
  ∃ w' normalizedAccess messages,
    validate json packages w = (w', Return (normalizedAccess, messages))
    ∧ occurrences (linked_duplicate_message p) messages
      = if decide (2 ≤ occurrences p (concat groups)) then 1 else 0.
Proof.
  intros Hwf Hl. eexists _, _, _. split; [by apply validate_spec|].
  rewrite occurrences_linked_duplicate_message.
  - unfold linked_names. by rewrite Hl, linked_groups_fmap.
  - by rewrite Hl.
  - rewrite Hl. apply is_array_of_arrays_of_strings_fmap.
Qed.


Lemma not_found_names (packages1 packages2 : Packages.t)
    (names : list string) :
  (∀ x, x ∈ workspace_names packages1 ↔ x ∈ workspace_names packages2) →
  not_found packages1 names = not_found packages2 names.
Proof.
  intros Hsame. unfold not_found. apply list_filter_iff. intros x.
  rewrite !elem_of_pkgNames_of. by rewrite Hsame.
Qed.

(** X10: [parse] looks at the workspace only through the names of its
    packages and through [getDependentsGraph]: on two workspaces that have
    the same set of package names and the same dependents graph it returns
    the same configuration or throws the same error, and logs the same
    warnings. *)
Theorem parse_workspace_names (json : JSValue)
    (packages1 packages2 : Packages.t) (w : World) :
  (∀ x, x ∈ workspace_names packages1 ↔ x ∈ workspace_names packages2) →
  getDependentsGraph packages1 = getDependentsGraph packages2 →
  (parse json packages1 w).2 = (parse json packages2 w).2
  ∧ warnings (parse json packages1 w).1 = warnings (parse json packages2 w).1.
Proof.
  intros Hsame Hgraph.
  assert (all_messages json packages1 = all_messages json packages2) as Hm.
  { unfold all_messages, linked_messages, ignore_messages.
    by rewrite Hgraph, !(not_found_names packages1 packages2). }
  destruct (well_formed json) eqn:Hwf.
  - rewrite !parse_spec by done. by rewrite Hm.
  - destruct (readable json) eqn:Hr.
    + by rewrite !parse_null_experimental.
    + unfold parse, bind. by rewrite !validate_unreadable.
Qed.

End parse.

(** ** The properties at work on the example workspace *)

Lemma parse_fails_iff_messages_witness :
  well_formed
    (Example.document
       [("linked", JArr [JArr [JStr "pkg-x"; JStr "pkg-a"; JStr "pkg-a"]])])
  = true
  ∧ validate Example.stringify Example.dependentsGraph
      (Example.document
         [("linked", JArr [JArr [JStr "pkg-x"; JStr "pkg-a"; JStr "pkg-a"]])])
      Example.workspace Example.world
    = (Example.world,
       Return (JUndefined,
               [linked_not_found_message "pkg-x";
                linked_duplicate_message "pkg-a"]))
  ∧ parse Example.stringify Example.dependentsGraph Example.version
      (Example.document
         [("linked", JArr [JArr [JStr "pkg-x"; JStr "pkg-a"; JStr "pkg-a"]])])
      Example.workspace Example.world
    = (Example.world,
       Throw (ValidationError
                ("Some errors occurred when validating the changesets config:"
                 +:+ String "010"%char EmptyString
                 +:+ linked_not_found_message "pkg-x"
                 +:+ String "010"%char EmptyString
                 +:+ linked_duplicate_message "pkg-a"))).
Proof.
  split; [reflexivity|]. split; [reflexivity|].
  destruct (parse_fails_iff_messages Example.stringify
              Example.dependentsGraph Example.version
              (Example.document
                 [("linked",
                   JArr [JArr [JStr "pkg-x"; JStr "pkg-a"; JStr "pkg-a"]])])
              Example.workspace Example.world eq_refl)
    as (w' & normalizedAccess & messages & Hv & Hfail & _ & _).
  injection Hv as <- _ <-.
  destruct Hfail as [Hparse Hpayload]; [discriminate|].
  rewrite Hpayload in Hparse. exact Hparse.
Defined.

Lemma parse_fails_iff_messages_counterexample :
  parse Example.stringify Example.dependentsGraph Example.version
    (Example.document
       [("___experimentalUnsafeOptions_WILL_CHANGE_IN_PATCH", JNull)])
    Example.workspace Example.world
  = (Example.world, Throw TypeError)
  ∧ ¬ ((∃ e,
          (parse Example.stringify Example.dependentsGraph Example.version
             (Example.document
                [("___experimentalUnsafeOptions_WILL_CHANGE_IN_PATCH",
                  JNull)])
             Example.workspace Example.world).2 = Throw e) →
       ∃ messages,
         messages ≠ []
         ∧ (parse Example.stringify Example.dependentsGraph Example.version
              (Example.document
                 [("___experimentalUnsafeOptions_WILL_CHANGE_IN_PATCH",
                   JNull)])
              Example.workspace Example.world).2
           = Throw (ValidationError (banner +:+ join newline messages))).
Proof.
  split; [reflexivity|]. intros Hclaim.
  destruct Hclaim as (messages & _ & Hp); [by exists TypeError|].
  discriminate Hp.
Qed.


Lemma linked_duplicate_reported_once_witness :
  well_formed
    (Example.document
       [("linked", JArr [JArr [JStr "pkg-a"; JStr "pkg-b"];
                         JArr [JStr "pkg-b"; JStr "pkg-c"]])]) = true
  ∧ ∃ w' normalizedAccess messages,
      validate Example.stringify Example.dependentsGraph
        (Example.document
           [("linked", JArr [JArr [JStr "pkg-a"; JStr "pkg-b"];
                             JArr [JStr "pkg-b"; JStr "pkg-c"]])])
        Example.workspace Example.world
      = (w', Return (normalizedAccess, messages))
      ∧ parse Example.stringify Example.dependentsGraph Example.version
          (Example.document
             [("linked", JArr [JArr [JStr "pkg-a"; JStr "pkg-b"];
                               JArr [JStr "pkg-b"; JStr "pkg-c"]])])
          Example.workspace Example.world
        = (w', Throw (ValidationError (banner +:+ join newline messages)))
      ∧ occurrences (linked_duplicate_message "pkg-b") messages = 1.
Proof.
  split; [reflexivity|].
  apply (linked_duplicate_reported_once Example.stringify
           Example.dependentsGraph Example.version _ Example.workspace
           Example.world [["pkg-a"; "pkg-b"]; ["pkg-b"; "pkg-c"]] "pkg-b"
           0 1 ["pkg-a"; "pkg-b"] ["pkg-b"; "pkg-c"]).
  - reflexivity.
  - reflexivity.
  - discriminate.
  - reflexivity.
  - reflexivity.
  - apply (bool_decide_unpack _). vm_compute. exact I.
  - apply (bool_decide_unpack _). vm_compute. exact I.
Defined.

Lemma linked_duplicate_within_one_set_witness :
  well_formed
    (Example.document [("linked", JArr [JArr [JStr "pkg-a"; JStr "pkg-a"]])])
  = true
  ∧ ∃ w' normalizedAccess messages,
      validate Example.stringify Example.dependentsGraph
        (Example.document
           [("linked", JArr [JArr [JStr "pkg-a"; JStr "pkg-a"]])])
        Example.workspace Example.world
      = (w', Return (normalizedAccess, messages))
      ∧ parse Example.stringify Example.dependentsGraph Example.version
          (Example.document
             [("linked", JArr [JArr [JStr "pkg-a"; JStr "pkg-a"]])])
          Example.workspace Example.world
        = (w', Throw (ValidationError (banner +:+ join newline messages)))
      ∧ occurrences (linked_duplicate_message "pkg-a") messages = 1.
Proof.
  split; [reflexivity|].
  apply (linked_duplicate_within_one_set Example.stringify
           Example.dependentsGraph Example.version _ Example.workspace
           Example.world [["pkg-a"; "pkg-a"]] "pkg-a" ["pkg-a"; "pkg-a"]).
  - reflexivity.
  - reflexivity.
  - apply (bool_decide_unpack _). vm_compute. exact I.
  - vm_compute. lia.
Defined.

Lemma access_private_rewritten_witness :
  (∃ w' config,
     parse Example.stringify Example.dependentsGraph Example.version
       (JObj {[ "access" := JStr "private" ]}) Example.workspace
       Example.world
     = (w', Return config)
     ∧ access config = JStr "restricted"
     ∧ warnings w' = [access_warning])
  ∧ (∃ w' messages,
       parse Example.stringify Example.dependentsGraph Example.version
         (JObj {[ "access" := JStr "internal" ]}) Example.workspace
         Example.world
       = (w', Throw (ValidationError (banner +:+ join newline messages)))
       ∧ access_message Example.stringify (JStr "internal") ∈ messages
       ∧ warnings w' = []).
Proof.
  split.
  - destruct (access_private_rewritten Example.stringify
                Example.dependentsGraph Example.version
                {[ "access" := JStr "private" ]} Example.workspace
                Example.world) as [Hprivate _].
    destruct (Hprivate eq_refl) as (_ & _ & Hok).
    destruct (Hok Example.world default_resolved eq_refl) as [Haccess Hparse].
    eexists _, _. split; [exact Hparse|]. split; [exact Haccess|reflexivity].
  - destruct (access_private_rewritten Example.stringify
                Example.dependentsGraph Example.version
                {[ "access" := JStr "internal" ]} Example.workspace
                Example.world) as [_ Hother].
    destruct (Hother "internal" eq_refl) as (w' & na & messages & _ & H1 & H2 & H3);
      [discriminate|discriminate|discriminate|reflexivity|].
    exists w', messages. split; [exact H1|]. split; [exact H2|exact H3].
Defined.

Lemma changelog_normalised_witness :
  well_formed (Example.document [("changelog", JStr "my-generator")]) = true
  ∧ ∃ w' config,
      parse Example.stringify Example.dependentsGraph Example.version
        (Example.document [("changelog", JStr "my-generator")])
        Example.workspace Example.world
      = (w', Return config)
      ∧ changelog config = JArr [JStr "my-generator"; JNull].
Proof.
  split; [reflexivity|].
  destruct (changelog_normalised Example.stringify Example.dependentsGraph
              Example.version) as (_ & _ & _ & _ & Hdoc).
  apply Hdoc; reflexivity.
Defined.

Lemma validation_exhaustive_ordered_witness :
  well_formed
    (Example.document
       [("commit", JStr "yes"); ("baseBranch", JNum 1);
        ("linked", JArr [JArr [JStr "pkg-x"; JStr "pkg-a"; JStr "pkg-a"]])])
  = true
  ∧ parse Example.stringify Example.dependentsGraph Example.version
      (Example.document
         [("commit", JStr "yes"); ("baseBranch", JNum 1);
          ("linked", JArr [JArr [JStr "pkg-x"; JStr "pkg-a"; JStr "pkg-a"]])])
      Example.workspace Example.world
    = (Example.world,
       Throw (ValidationError
                (banner
                 +:+ join newline
                       [commit_message Example.stringify (JStr "yes");
                        baseBranch_message Example.stringify (JNum 1);
                        linked_not_found_message "pkg-x";
                        linked_duplicate_message "pkg-a"]))).
Proof.
  split; [reflexivity|].
  destruct (validation_exhaustive_ordered Example.stringify
              Example.dependentsGraph Example.version
              (Example.document
                 [("commit", JStr "yes"); ("baseBranch", JNum 1);
                  ("linked",
                   JArr [JArr [JStr "pkg-x"; JStr "pkg-a"; JStr "pkg-a"]])])
              Example.workspace Example.world eq_refl)
    as (_ & Hparse & _ & _).
  apply Hparse. discriminate.
Defined.

Lemma validation_exhaustive_ordered_counterexample :
  validate_commit Example.stringify
    (Example.document
       [("commit", JStr "yes");
        ("___experimentalUnsafeOptions_WILL_CHANGE_IN_PATCH", JNull)])
    [] Example.world
  = (Example.world, Return [commit_message Example.stringify (JStr "yes")])
  ∧ validate Example.stringify Example.dependentsGraph
      (Example.document
         [("commit", JStr "yes");
          ("___experimentalUnsafeOptions_WILL_CHANGE_IN_PATCH", JNull)])
      Example.workspace Example.world
    = (Example.world, Throw TypeError)
  ∧ validate Example.stringify Example.dependentsGraph JNull
      Example.workspace Example.world
    = (Example.world, Throw TypeError)
  ∧ ¬ (∃ w' normalizedAccess messages,
         validate Example.stringify Example.dependentsGraph
           (Example.document
              [("commit", JStr "yes");
               ("___experimentalUnsafeOptions_WILL_CHANGE_IN_PATCH", JNull)])
           Example.workspace Example.world
         = (w', Return (normalizedAccess, messages))).
Proof.
  split; [reflexivity|]. split; [reflexivity|]. split; [reflexivity|].
  intros (w' & normalizedAccess & messages & Hv). discriminate Hv.
Qed.

Lemma falsy_ignore_skipped_witness :
  ∃ config,
    parse Example.stringify Example.dependentsGraph Example.version
      (JObj {[ "ignore" := JNull ]}) Example.workspace Example.world
    = (Example.world, Return config)
    ∧ ignore config = JNull.
Proof.
  destruct (falsy_ignore_skipped Example.stringify Example.dependentsGraph
              Example.version {[ "ignore" := JNull ]} JNull
              Example.workspace Example.world)
    as (_ & _ & _ & Hparse); [reflexivity|discriminate|reflexivity|].
  eexists. split; [exact Hparse|reflexivity].
Defined.

Lemma empty_document_gives_defaults_witness :
  parse Example.stringify Example.dependentsGraph Example.version
    (Example.document
       [("$schema", JStr "https://unpkg.com/@changesets/config/schema.json")])
    Example.workspace Example.world
  = (Example.world, Return default_resolved).
Proof.
  destruct (empty_document_gives_defaults Example.stringify
              Example.dependentsGraph Example.version Example.workspace
              Example.world) as (_ & _ & _ & Hany).
  apply Hany; reflexivity.
Defined.

Lemma parse_succeeds_iff_valid_witness :
  valid_document Example.dependentsGraph
    (Example.document
       [("changelog", JArr [JStr "my-generator"; JNull]);
        ("linked", JArr [JArr [JStr "pkg-a"; JStr "pkg-c"]]);
        ("ignore", JArr [JStr "pkg-b"])])
    Example.workspace.
Proof.
  destruct (parse_succeeds_iff_valid Example.stringify
              Example.dependentsGraph Example.version
              (Example.document
                 [("changelog", JArr [JStr "my-generator"; JNull]);
                  ("linked", JArr [JArr [JStr "pkg-a"; JStr "pkg-c"]]);
                  ("ignore", JArr [JStr "pkg-b"])])
              Example.workspace Example.world) as [_ Hvalid].
  eapply Hvalid. reflexivity.
Defined.

Lemma parse_result_typed_witness :
  well_typed Example.dependentsGraph Example.workspace
    {| changelog := JArr [JStr "@changesets/cli/changelog"; JNull];
       access := JStr "restricted";
       commit := JBool true;
       linked := JArr [];
       baseBranch := JStr "master";
       updateInternalDependencies := JStr "patch";
       ignore := JBool false;
       ___experimentalUnsafeOptions_WILL_CHANGE_IN_PATCH := {|
         onlyUpdatePeerDependentsWhenOutOfRange := JBool false;
         useCalculatedVersionForSnapshots := JBool false |} |}.
Proof.
  eapply (parse_result_typed Example.stringify Example.dependentsGraph
            Example.version
            (Example.document
               [("commit", JBool true); ("access", JStr "private");
                ("ignore", JBool false)])
            Example.workspace Example.world).
  reflexivity.
Defined.

Lemma parse_type_error_witness :
  ∃ w',
    parse Example.stringify Example.dependentsGraph Example.version
      (Example.document
         [("commit", JStr "yes");
          ("___experimentalUnsafeOptions_WILL_CHANGE_IN_PATCH", JNull)])
      Example.workspace Example.world
    = (w', Throw TypeError).
Proof.
  destruct (parse_type_error Example.stringify Example.dependentsGraph
              Example.version
              (Example.document
                 [("commit", JStr "yes");
                  ("___experimentalUnsafeOptions_WILL_CHANGE_IN_PATCH",
                   JNull)])
              Example.workspace Example.world) as (_ & _ & Hexp).
  eexists. apply Hexp. reflexivity.
Defined.

Lemma parse_effects_witness :
  warnings
    (parse Example.stringify Example.dependentsGraph Example.version
       (Example.document
          [("access", JStr "private"); ("ignore", JArr []);
           ("commit", JNum 1)])
       Example.workspace Example.world).1
  = [access_warning]
  ∧ dependentsGraphCalls
      (parse Example.stringify Example.dependentsGraph Example.version
         (Example.document
            [("access", JStr "private"); ("ignore", JArr []);
             ("commit", JNum 1)])
         Example.workspace Example.world).1
    = [Example.workspace].
Proof.
  destruct (parse_effects Example.stringify Example.dependentsGraph
              Example.version
              (Example.document
                 [("access", JStr "private"); ("ignore", JArr []);
                  ("commit", JNum 1)])
              Example.workspace Example.world) as (Hw & Hc & _ & _);
    [discriminate|discriminate|].
  split; [exact Hw|exact Hc].
Defined.

Lemma parse_non_object_witness :
  parse Example.stringify Example.dependentsGraph Example.version
    (JArr [JStr "pkg-a"]) Example.workspace Example.world
  = (Example.world, Return default_resolved).
Proof.
  apply (parse_non_object Example.stringify Example.dependentsGraph
           Example.version);
    [discriminate|discriminate|intros fields; discriminate].
Defined.

Lemma parse_idempotent_witness :
  parse Example.stringify Example.dependentsGraph Example.version
    (written
       {| changelog := JArr [JStr "my-generator"; JNull];
          access := JStr "restricted";
          commit := JBool false;
          linked := JArr [];
          baseBranch := JStr "master";
          updateInternalDependencies := JStr "patch";
          ignore := JArr [];
          ___experimentalUnsafeOptions_WILL_CHANGE_IN_PATCH := {|
            onlyUpdatePeerDependentsWhenOutOfRange := JBool false;
            useCalculatedVersionForSnapshots := JBool false |} |})
    Example.workspace Example.world
  = ({| warnings := []; dependentsGraphCalls := [Example.workspace] |},
     Return
       {| changelog := JArr [JStr "my-generator"; JNull];
          access := JStr "restricted";
          commit := JBool false;
          linked := JArr [];
          baseBranch := JStr "master";
          updateInternalDependencies := JStr "patch";
          ignore := JArr [];
          ___experimentalUnsafeOptions_WILL_CHANGE_IN_PATCH := {|
            onlyUpdatePeerDependentsWhenOutOfRange := JBool false;
            useCalculatedVersionForSnapshots := JBool false |} |}).
Proof.
  eapply (parse_idempotent Example.stringify Example.dependentsGraph
            Example.version
            (Example.document
               [("changelog", JStr "my-generator");
                ("access", JStr "private")])
            Example.workspace Example.world).
  reflexivity.
Defined.

Lemma linked_not_found_per_occurrence_witness :
  ∃ w' normalizedAccess messages,
    validate Example.stringify Example.dependentsGraph
      (Example.document
         [("linked", JArr [JArr [JStr "pkg-x"; JStr "pkg-a"];
                           JArr [JStr "pkg-x"]])])
      Example.workspace Example.world
    = (w', Return (normalizedAccess, messages))
    ∧ occurrences (linked_not_found_message "pkg-x") messages = 2.
Proof.
  destruct (linked_not_found_per_occurrence Example.stringify
              Example.dependentsGraph
              (Example.document
                 [("linked", JArr [JArr [JStr "pkg-x"; JStr "pkg-a"];
                                   JArr [JStr "pkg-x"]])])
              Example.workspace Example.world
              [["pkg-x"; "pkg-a"]; ["pkg-x"]] "pkg-x" eq_refl eq_refl)
    as (w' & normalizedAccess & messages & Hv & Hocc).
  exists w', normalizedAccess, messages. split; [exact Hv|].
  rewrite Hocc. reflexivity.
Defined.

Lemma ignore_not_found_per_occurrence_witness :
  ∃ w' normalizedAccess messages,
    validate Example.stringify Example.dependentsGraph
      (Example.document [("ignore", JArr [JStr "pkg-x"; JStr "pkg-b"])])
      Example.workspace Example.world
    = (w', Return (normalizedAccess, messages))
    ∧ occurrences (ignore_not_found_message "pkg-x") messages = 1
    ∧ occurrences (ignore_not_found_message "pkg-b") messages = 0.
Proof.
  destruct (ignore_not_found_per_occurrence Example.stringify
              Example.dependentsGraph
              (Example.document
                 [("ignore", JArr [JStr "pkg-x"; JStr "pkg-b"])])
              Example.workspace Example.world ["pkg-x"; "pkg-b"] "pkg-x"
              eq_refl eq_refl)
    as (w' & normalizedAccess & messages & Hv & Hocc).
  exists w', normalizedAccess, messages. split; [exact Hv|].
  split; [rewrite Hocc; reflexivity|].
  injection Hv as _ _ <-. reflexivity.
Defined.

Lemma linked_duplicate_iff_repeated_witness :
  ∃ w' normalizedAccess messages,
    validate Example.stringify Example.dependentsGraph
      (Example.document
         [("linked", JArr [JArr [JStr "pkg-a"; JStr "pkg-b"];
                           JArr [JStr "pkg-c"]])])
      Example.workspace Example.world
    = (w', Return (normalizedAccess, messages))
    ∧ occurrences (linked_duplicate_message "pkg-a") messages = 0.
Proof.
  destruct (linked_duplicate_iff_repeated Example.stringify
              Example.dependentsGraph
              (Example.document
                 [("linked", JArr [JArr [JStr "pkg-a"; JStr "pkg-b"];
                                   JArr [JStr "pkg-c"]])])
              Example.workspace Example.world
              [["pkg-a"; "pkg-b"]; ["pkg-c"]] "pkg-a" eq_refl eq_refl)
    as (w' & normalizedAccess & messages & Hv & Hocc).
  exists w', normalizedAccess, messages. split; [exact Hv|].
  rewrite Hocc. reflexivity.
Defined.

Lemma parse_workspace_names_witness :
  (parse Example.stringify Example.dependentsGraph Example.version
     (Example.document [("linked", JArr [JArr [JStr "pkg-x"]])])
     Example.workspace Example.world).2
  = (parse Example.stringify Example.dependentsGraph Example.version
       (Example.document [("linked", JArr [JArr [JStr "pkg-x"]])])
       {| Packages.root := Example.package "other";
          Packages.tool := "pnpm";
          Packages.packages :=
            [Example.package "pkg-c"; Example.package "pkg-b";
             Example.package "pkg-a"; Example.package "pkg-c"] |}
       Example.world).2.
Proof.
  apply (parse_workspace_names Example.stringify Example.dependentsGraph
           Example.version).
  - intros x. unfold workspace_names; simpl.
    rewrite !elem_of_cons, !elem_of_nil. tauto.
  - reflexivity.
Defined.
